(** * A model of [csv_consolidator.py]

    The script merges the CSV files of [data/unprocessed/] into one CSV file
    of [data/processed/].  This file embeds its five functions
    ([get_csv_date], [read_csv_with_metadata], [get_all_headers],
    [generate_date_range_filename], [consolidate_csvs]) in Rocq.

    Modelling choices.
    - Effects (the [logging] calls, [input()], the files written into the
      processed directory, and Python exceptions) live in a small state and
      exception monad [M].
    - What the Python process and pandas decide on their own is gathered in
      a record [Runtime]: the iteration order of a Python [set] of strings
      (string hashing is salted per process), [pd.read_csv] on the lines of
      a file from the header line on, the date parser behind
      [pd.to_datetime], and [datetime.now()].
    - A pandas cell is [option string]: [None] is a missing value
      ([NaN]/[pd.NA]), [Some s] a present value, named by its CSV
      rendering; pandas' dtype inference is not modelled. *)

From Stdlib Require Import String Ascii ZArith List Bool.
From stdpp Require Import base gmap sets list strings.

Local Open Scope Z_scope.

Notation "a +++ b" := (String.append a b) (at level 60, right associativity).

(** ** Strings *)

Fixpoint starts_with (p s : string) : bool :=
  match p, s with
  | EmptyString, _ => true
  | String c p', String d s' => Ascii.eqb c d && starts_with p' s'
  | String _ _, EmptyString => false
  end.

(** Python's [sub in s]. *)
Fixpoint py_contains (sub s : string) : bool :=
  starts_with sub s ||
  match s with
  | EmptyString => false
  | String _ s' => py_contains sub s'
  end.

(** Python's [s.endswith(suf)]. *)
Definition py_endswith (s suf : string) : bool :=
  starts_with (String.rev suf) (String.rev s).

Definition ascii_lower (c : ascii) : ascii :=
  let n := Ascii.nat_of_ascii c in
  if (65 <=? n)%nat && (n <=? 90)%nat then Ascii.ascii_of_nat (n + 32) else c.

(** Python's [s.lower()] on ASCII text. *)
Fixpoint py_lower (s : string) : string :=
  match s with
  | EmptyString => EmptyString
  | String c s' => String (ascii_lower c) (py_lower s')
  end.

Fixpoint join (sep : string) (l : list string) : string :=
  match l with
  | [] => ""
  | [x] => x
  | x :: l' => x +++ sep +++ join sep l'
  end.

(** ** Python values and the effect monad *)

(** A pandas cell: [None] is a missing value. *)
Abbreviation cell := (option string).

(** An input file of [data/unprocessed/]: its path and its lines. *)
Record file := mkFile { fname : string; flines : list string }.

#[global] Instance file_eq_dec : EqDecision file.
Proof. intros [a b] [c d]. destruct (decide (a = c)), (decide (b = d)); subst;
  [left; reflexivity | right; congruence ..]. Defined.

(** The [logging] calls of the script, one constructor per call site. *)
Inductive event :=
  | LogNoFiles                               (* line 126 *)
  | LogFound (n : nat)                       (* line 129 *)
  | LogErrorReading (f : string) (e : string) (* line 70 *)
  | LogErrorHeaders (f : string) (e : string) (* line 85 *)
  | LogDifferentHeaders                      (* line 140 *)
  | LogAdditional (f : string) (extra : list string) (* line 144, the set as iterated *)
  | LogPrompt (question : string) (answer : string) (* line 146, input() *)
  | LogCommonOnly                            (* line 148 *)
  | LogMergeError (f : string) (e : string)  (* line 163 *)
  | LogRead (f : string)                     (* line 161 *)
  | LogNoValid                               (* line 167 *)
  | LogConsolidated (n : nat) (path : string) (* line 187 *)
  | LogTotalRows (n : nat)                   (* line 188 *)
  | LogTotalColumns (n : nat)                (* line 189 *)
  | LogOccurred (e : string).                (* line 192 *)

(** The run's state: the log, the unread lines of standard input, and the
    files of [data/processed/] (name to contents). *)
Record state := mkState {
  st_log : list event;
  st_stdin : list string;
  st_fs : gmap string string
}.

(** An outcome: a value, or a Python exception carrying its message. *)
Inductive result (A : Type) := Ok (a : A) | Exc (e : string).
Arguments Ok {A} a.
Arguments Exc {A} e.

Definition M (A : Type) : Type := state -> result A * state.

#[global] Instance M_ret : MRet M := fun A a s => (Ok a, s).
#[global] Instance M_bind : MBind M := fun A B k m s =>
  match m s with
  | (Ok a, s') => k a s'
  | (Exc e, s') => (Exc e, s')
  end.

Definition raise {A} (e : string) : M A := fun s => (Exc e, s).

(** [try: m except Exception as e: h e]. *)
Definition try_except {A} (m : M A) (h : string -> M A) : M A := fun s =>
  match m s with
  | (Exc e, s') => h e s'
  | r => r
  end.

Definition log (ev : event) : M unit := fun s =>
  (Ok tt, mkState (st_log s ++ [ev]) (st_stdin s) (st_fs s)).

(** [input(question)]: one line of standard input, [EOFError] at its end. *)
Definition input (question : string) : M string := fun s =>
  match st_stdin s with
  | [] => (Exc "EOFError", s)
  | l :: rest =>
      (Ok l, mkState (st_log s ++ [LogPrompt question l]) rest (st_fs s))
  end.

(** Writing a file of [data/processed/] (mode ["w"] truncates). *)
Definition write_file (path contents : string) : M unit := fun s =>
  (Ok tt, mkState (st_log s) (st_stdin s) (<[path := contents]> (st_fs s))).

(** [for x in l: body x]. *)
Fixpoint for_ {A} (l : list A) (body : A -> M unit) : M unit :=
  match l with
  | [] => mret tt
  | x :: l' => body x ;; for_ l' body
  end.

(** ** Dates *)

Record date := mkDate { year : Z; month : Z; day : Z }.

Definition date_ltb (a b : date) : bool :=
  (year a <? year b) ||
  ((year a =? year b) && ((month a <? month b) ||
                          ((month a =? month b) && (day a <? day b)))).

(** A pandas [Timestamp], or [NaT] (the missing timestamp). *)
Inductive stamp := NaT | Ts (d : date).

(** Python's [<] on stamps: every comparison with [NaT] is false. *)
Definition stamp_lt (a b : stamp) : bool :=
  match a, b with
  | Ts x, Ts y => date_ltb x y
  | _, _ => false
  end.

Definition digit (z : Z) : ascii := Ascii.ascii_of_nat (48 + Z.to_nat z).

Fixpoint digits (k : nat) (n : Z) : string :=
  match k with
  | O => ""
  | S k' => digits k' (n / 10) +++ String (digit (n mod 10)) ""
  end.

(** [d.strftime("%m-%d-%Y")]. *)
Definition strftime_mdY (d : date) : string :=
  digits 2 (month d) +++ "-" +++ digits 2 (day d) +++ "-" +++ digits 4 (year d).

(** ** DataFrames and the runtime *)

(** A pandas DataFrame: its column labels and its rows, one cell per
    column. *)
Record frame := mkFrame { columns : list string; rows : list (list cell) }.

(** What the Python process and pandas decide.  [set_iter] is the order in
    which a [set] of strings is iterated ([for col in s], [list(s)]);
    [read_csv] is [pd.read_csv] on the lines of a file from the header line
    on (an error message, or a frame with unique labels and one cell per
    column in every row); [parse_datetime] is the parser of
    [pd.to_datetime] on one present value; [now] is [datetime.now()]. *)
Record Runtime := mkRuntime {
  set_iter : gset string -> list string;
  set_iter_NoDup : forall s, NoDup (set_iter s);
  set_iter_elem : forall s x, x ∈ set_iter s <-> x ∈ s;
  read_csv : list string -> string + frame;
  read_csv_NoDup : forall ls df, read_csv ls = inr df -> NoDup (columns df);
  read_csv_rows : forall ls df, read_csv ls = inr df ->
    Forall (fun r => length r = length (columns df)) (rows df);
  parse_datetime : string -> option date;
  now : date
}.

(** ** [read_csv_with_metadata] *)

Definition HEADER_MARKER : string := "ID,Timestamp,Transaction Type".

(** The loop of lines 56-60: index of the first line holding the marker. *)
Fixpoint find_header (i : nat) (lines : list string) : option nat :=
  match lines with
  | [] => None
  | l :: ls => if py_contains HEADER_MARKER l then Some i else find_header (S i) ls
  end.

Definition read_csv_with_metadata (rt : Runtime) (f : file) : M frame :=
  try_except
    (match find_header 0 (flines f) with
     | None => raise "Could not find CSV headers"
     | Some header_index =>
         match read_csv rt (drop header_index (flines f)) with
         | inl e => raise e
         | inr df => mret df
         end
     end)
    (fun e => log (LogErrorReading (fname f) e) ;; raise e).

(** ** [get_all_headers] *)

(** A Python dict keyed by file, in insertion order. *)
Abbreviation dict := (list (file * gset string)).

Fixpoint dict_set (k : file) (v : gset string) (d : dict) : dict :=
  match d with
  | [] => [(k, v)]
  | (k', v') :: d' => if decide (k = k') then (k, v) :: d' else (k', v') :: dict_set k v d'
  end.

Fixpoint dict_get (k : file) (d : dict) : option (gset string) :=
  match d with
  | [] => None
  | (k', v) :: d' => if decide (k = k') then Some v else dict_get k d'
  end.

Fixpoint get_all_headers_loop (rt : Runtime) (files : list file)
    (all_headers : gset string) (headers_by_file : dict) : M (gset string * dict) :=
  match files with
  | [] => mret (all_headers, headers_by_file)
  | file :: rest =>
      '(all', by') ← try_except
        (df ← read_csv_with_metadata rt file;
         let headers := list_to_set (columns df) : gset string in
         mret (all_headers ∪ headers, dict_set file headers headers_by_file))
        (fun e => log (LogErrorHeaders (fname file) e) ;; raise e);
      get_all_headers_loop rt rest all' by'
  end.

Definition get_all_headers (rt : Runtime) (csv_files : list file) : M (gset string * dict) :=
  get_all_headers_loop rt csv_files ∅ [].

(** ** The schema check of [consolidate_csvs] (lines 135-149) *)

Definition NL : string := String (Ascii.ascii_of_nat 10) "".

Definition QUESTION : string :=
  NL +++ "Would you like to include these new columns? [y/N]: ".

(** [headers_by_file[csv_files[0]]], then the mismatch check and the
    prompt; the result is the [all_headers] the merge goes on with. *)
Definition reconcile (rt : Runtime) (first : file) (all_headers : gset string)
    (headers_by_file : dict) : M (gset string) :=
  match dict_get first headers_by_file with
  | None => raise "KeyError"
  | Some base_headers =>
      let new_headers := all_headers ∖ base_headers in
      if decide (new_headers = ∅) then mret all_headers
      else
        log LogDifferentHeaders ;;
        for_ headers_by_file (fun '(file, headers) =>
          let diff := headers ∖ base_headers in
          if decide (diff = ∅) then mret tt else log (LogAdditional (fname file) (set_iter rt diff))) ;;
        response ← input QUESTION;
        if String.eqb (py_lower response) "y" then mret all_headers
        else log LogCommonOnly ;; mret base_headers
  end.

(** ** The merge loop (lines 152-164) *)

(** [df[col] = pd.NA]: a new last column, missing in every row. *)
Definition add_column (df : frame) (col : string) : frame :=
  if decide (col ∈ columns df) then df
  else mkFrame (columns df ++ [col]) (map (fun r => r ++ [None]) (rows df)).

(** [for col in all_headers: if col not in df.columns: df[col] = pd.NA]. *)
Definition add_missing (rt : Runtime) (all_headers : gset string) (df : frame) : frame :=
  fold_left add_column (set_iter rt all_headers) df.

Fixpoint merge_loop (rt : Runtime) (all_headers : gset string) (files : list file)
    (dfs : list frame) : M (list frame) :=
  match files with
  | [] => mret dfs
  | file :: rest =>
      dfs' ← try_except
        (df ← read_csv_with_metadata rt file;
         let df := add_missing rt all_headers df in
         log (LogRead (fname file)) ;;
         mret (dfs ++ [df]))
        (fun e => log (LogMergeError (fname file) e) ;; mret dfs);
      merge_loop rt all_headers rest dfs'
  end.

(** ** [pd.concat] and [reindex] (lines 171-174) *)

Fixpoint lookup_col (c : string) (r : list (string * cell)) : option cell :=
  match r with
  | [] => None
  | (c', v) :: r' => if String.eqb c c' then Some v else lookup_col c r'
  end.

(** [pd.concat(dfs, ignore_index=True)]: rows in order, each aligned by
    column label. *)
Definition concat_frames (dfs : list frame) : list (list (string * cell)) :=
  List.concat (map (fun df => map (fun r => zip (columns df) r) (rows df)) dfs).

(** [.reindex(columns=cols)]: a column absent from a row gives [NaN]. *)
Definition reindex (cols : list string) (rs : list (list (string * cell))) : frame :=
  mkFrame cols (map (fun r => map (fun c => match lookup_col c r with
                                           | Some v => v
                                           | None => None
                                           end) cols) rs).

(** ** [get_csv_date] *)

Definition date_columns : list string :=
  ["date"; "timestamp"; "created_at"; "datetime"; "time"; "Timestamp"].

Fixpoint col_index (c : string) (cols : list string) : option nat :=
  match cols with
  | [] => None
  | c' :: cs => if String.eqb c c' then Some 0%nat else S <$> col_index c cs
  end.

(** [df[col]]. *)
Definition column_values (df : frame) (col : string) : list cell :=
  match col_index col (columns df) with
  | Some i => map (fun r => default None (r !! i)) (rows df)
  | None => []
  end.

(** [pd.to_datetime(series)]: [None] when some present value does not
    parse (an exception); a missing value becomes [NaT]. *)
Definition to_datetime (rt : Runtime) (vs : list cell) : option (list stamp) :=
  mapM (fun v => match v with
                 | None => Some NaT
                 | Some s => Ts <$> parse_datetime rt s
                 end) vs.

(** [series.min()]: the least timestamp, [NaT] when there is none. *)
Definition series_min (ds : list stamp) : stamp :=
  fold_left (fun acc d => match acc, d with
                          | _, NaT => acc
                          | NaT, Ts _ => d
                          | Ts a, Ts b => if date_ltb b a then d else acc
                          end) ds NaT.

Definition is_date_column (col : string) : bool :=
  existsb (fun date_name => py_contains date_name (py_lower col)) date_columns.

Fixpoint get_csv_date_loop (rt : Runtime) (df : frame) (cols : list string) : option stamp :=
  match cols with
  | [] => None
  | col :: rest =>
      if is_date_column col then
        match to_datetime rt (column_values df col) with
        | Some dates =>
            if negb (bool_decide (dates = [])) then Some (series_min dates)
            else get_csv_date_loop rt df rest
        | None => get_csv_date_loop rt df rest
        end
      else get_csv_date_loop rt df rest
  end.

Definition get_csv_date (rt : Runtime) (df : frame) : option stamp :=
  get_csv_date_loop rt df (columns df).

(** ** [generate_date_range_filename] *)

(** Python's [min] and [max] on a non-empty list: a later item replaces the
    current one when it compares [<] (resp. [>]) to it. *)
Definition py_min (x : stamp) (xs : list stamp) : stamp :=
  fold_left (fun cur y => if stamp_lt y cur then y else cur) xs x.

Definition py_max (x : stamp) (xs : list stamp) : stamp :=
  fold_left (fun cur y => if stamp_lt cur y then y else cur) xs x.

(** [ts.strftime("%m-%d-%Y")]; [NaT.strftime] raises [ValueError]. *)
Definition strftime (s : stamp) : M string :=
  match s with
  | NaT => raise "NaTType does not support strftime"
  | Ts d => mret (strftime_mdY d)
  end.

Definition generate_date_range_filename (rt : Runtime) (dfs : list frame) : M string :=
  let all_dates := omap (get_csv_date rt) dfs in
  match all_dates with
  | earliest0 :: rest =>
      let earliest := py_min earliest0 rest in
      let latest := py_max earliest0 rest in
      e ← strftime earliest;
      l ← strftime latest;
      mret ("consolidated_" +++ e +++ "_thru_" +++ l +++ ".csv")
  | [] => mret ("consolidated_" +++ strftime_mdY (now rt) +++ ".csv")
  end.

(** ** [DataFrame.to_csv(path, index=False)] *)

Definition QUOTE : ascii := Ascii.ascii_of_nat 34.

Fixpoint needs_quoting (s : string) : bool :=
  match s with
  | EmptyString => false
  | String c s' =>
      let n := Ascii.nat_of_ascii c in
      (n =? 44)%nat || (n =? 34)%nat || (n =? 10)%nat || (n =? 13)%nat || needs_quoting s'
  end.

Fixpoint double_quotes (s : string) : string :=
  match s with
  | EmptyString => EmptyString
  | String c s' =>
      if Ascii.eqb c QUOTE then String QUOTE (String QUOTE (double_quotes s'))
      else String c (double_quotes s')
  end.

(** The [csv] module's [QUOTE_MINIMAL] rendering of one field. *)
Definition csv_field (s : string) : string :=
  if needs_quoting s then String QUOTE (double_quotes s +++ String QUOTE "") else s.

(** One record; a record made of one empty field is written as two quotes. *)
Definition csv_record (fields : list string) : string :=
  match fields with
  | [EmptyString] => String QUOTE (String QUOTE "") +++ NL
  | _ => join "," (map csv_field fields) +++ NL
  end.

(** A missing value is written as the empty field ([na_rep='']). *)
Definition render (v : cell) : string := default "" v.

Definition to_csv (df : frame) : string :=
  csv_record (columns df) +++
  List.fold_right String.append "" (map (fun r => csv_record (map render r)) (rows df)).

(** ** [consolidate_csvs] *)

(** Lines 177-180. *)
Definition choose_output_filename (rt : Runtime) (output_filename : option string)
    (dfs : list frame) : M string :=
  match output_filename with
  | None => generate_date_range_filename rt dfs
  | Some n => mret (if py_endswith n ".csv" then n else n +++ ".csv")
  end.

(** Lines 133-180: from the header pass to the output file name and the
    final table, with the number of merged files; [None] when no file
    could be read in the merge loop (the [return] of line 168). *)
Definition prepare (rt : Runtime) (output_filename : option string)
    (first : file) (csv_files : list file) : M (option (string * frame * nat)) :=
  '(all_headers, headers_by_file) ← get_all_headers rt csv_files;
  all_headers ← reconcile rt first all_headers headers_by_file;
  dfs ← merge_loop rt all_headers csv_files [];
  match dfs with
  | [] => log LogNoValid ;; mret None
  | _ :: _ =>
      let final_df := reindex (set_iter rt all_headers) (concat_frames dfs) in
      output_filename ← choose_output_filename rt output_filename dfs;
      mret (Some (output_filename, final_df, length dfs))
  end.

(** [csv_files] is [list(UNPROCESSED_DIR.glob('*.csv'))], in its order;
    the files written are those of [PROCESSED_DIR], keyed by name. *)
Definition consolidate_csvs (rt : Runtime) (output_filename : option string)
    (csv_files : list file) : M unit :=
  match csv_files with
  | [] => log LogNoFiles
  | first :: _ =>
      log (LogFound (length csv_files)) ;;
      try_except
        (o ← prepare rt output_filename first csv_files;
         match o with
         | None => mret tt
         | Some (output_path, final_df, n) =>
             write_file output_path (to_csv final_df) ;;
             log (LogConsolidated n output_path) ;;
             log (LogTotalRows (length (rows final_df))) ;;
             log (LogTotalColumns (length (columns final_df)))
         end)
        (fun e => log (LogOccurred e) ;; raise e)
  end.

(** A run from a fresh log. *)
Definition run (rt : Runtime) (output_filename : option string) (csv_files : list file)
    (stdin : list string) (fs : gmap string string) : result unit * state :=
  consolidate_csvs rt output_filename csv_files (mkState [] stdin fs).

(** ** A concrete runtime

    Used to run the model on sample directories: [pd.read_csv] on plain
    comma-separated text (no quoting) with string cells, an ISO
    [YYYY-MM-DD] date parser, and two set iteration orders. *)

Fixpoint split_comma (s : string) : list string :=
  match s with
  | EmptyString => [""]
  | String c s' =>
      if Ascii.eqb c "," then "" :: split_comma s'
      else match split_comma s' with
           | [] => [String c ""]
           | x :: xs => String c x :: xs
           end
  end.

Definition to_cell (s : string) : cell := if String.eqb s "" then None else Some s.

Fixpoint parse_rows (n : nat) (lines : list string) : string + list (list cell) :=
  match lines with
  | [] => inr []
  | l :: ls =>
      if String.eqb l "" then parse_rows n ls
      else
        let fields := split_comma l in
        if (length fields <=? n)%nat then
          match parse_rows n ls with
          | inl e => inl e
          | inr rs => inr ((map to_cell fields ++ replicate (n - length fields) None) :: rs)
          end
        else inl "Error tokenizing data"
  end.

Definition plain_read_csv (lines : list string) : string + frame :=
  match lines with
  | [] => inl "No columns to parse from file"
  | h :: data =>
      let cols := split_comma h in
      if bool_decide (NoDup cols) then
        match parse_rows (length cols) data with
        | inl e => inl e
        | inr rs => inr (mkFrame cols rs)
        end
      else inl "Duplicate column names"
  end.

Definition digit_val (c : ascii) : option Z :=
  let n := Ascii.nat_of_ascii c in
  if (48 <=? n)%nat && (n <=? 57)%nat then Some (Z.of_nat n - 48) else None.

Definition parse_iso (s : string) : option date :=
  match list_ascii_of_string s with
  | [y1; y2; y3; y4; s1; m1; m2; s2; d1; d2] =>
      if Ascii.eqb s1 "-" && Ascii.eqb s2 "-" then
        y1 ← digit_val y1; y2 ← digit_val y2; y3 ← digit_val y3; y4 ← digit_val y4;
        m1 ← digit_val m1; m2 ← digit_val m2; d1 ← digit_val d1; d2 ← digit_val d2;
        let y := 1000 * y1 + 100 * y2 + 10 * y3 + y4 in
        let m := 10 * m1 + m2 in
        let d := 10 * d1 + d2 in
        if (1 <=? m) && (m <=? 12) && (1 <=? d) && (d <=? 31) then Some (mkDate y m d)
        else None
      else None
  | _ => None
  end.

Lemma parse_rows_length n lines rs :
  parse_rows n lines = inr rs -> Forall (fun r => length r = n) rs.
Proof.
  revert rs; induction lines as [|l ls IH]; intros rs H; simpl in H.
  - injection H as <-. constructor.
  - destruct (String.eqb l ""); [by apply IH|].
    destruct (Nat.leb_spec (length (split_comma l)) n); [|discriminate].
    destruct (parse_rows n ls) as [e|rs'] eqn:E; [discriminate|].
    injection H as <-. constructor; [|by apply IH].
    rewrite length_app, length_map, length_replicate. lia.
Qed.

Lemma plain_read_csv_NoDup ls df : plain_read_csv ls = inr df -> NoDup (columns df).
Proof.
  destruct ls as [|h data]; simpl; [discriminate|].
  case_bool_decide; [|discriminate].
  destruct (parse_rows _ data); [discriminate|]. intros [= <-]. done.
Qed.

Lemma plain_read_csv_rows ls df : plain_read_csv ls = inr df ->
  Forall (fun r => length r = length (columns df)) (rows df).
Proof.
  destruct ls as [|h data]; simpl; [discriminate|].
  case_bool_decide; [|discriminate].
  destruct (parse_rows _ data) eqn:E; [discriminate|]. intros [= <-].
  by apply parse_rows_length in E.
Qed.

Lemma elements_iter_NoDup (s : gset string) : NoDup (elements s).
Proof. apply NoDup_elements. Qed.

Lemma elements_iter_elem (s : gset string) x : x ∈ elements s <-> x ∈ s.
Proof. apply elem_of_elements. Qed.

Lemma rev_elements_iter_NoDup (s : gset string) : NoDup (reverse (elements s)).
Proof. rewrite reverse_Permutation. apply NoDup_elements. Qed.

Lemma rev_elements_iter_elem (s : gset string) x : x ∈ reverse (elements s) <-> x ∈ s.
Proof. rewrite elem_of_reverse. apply elem_of_elements. Qed.

Definition TODAY : date := mkDate 2026 10 15.

(** Two processes that iterate sets of strings in opposite orders. *)
Definition rt_a : Runtime :=
  mkRuntime (fun s => elements s) elements_iter_NoDup elements_iter_elem
    plain_read_csv plain_read_csv_NoDup plain_read_csv_rows parse_iso TODAY.

Definition rt_b : Runtime :=
  mkRuntime (fun s => reverse (elements s)) rev_elements_iter_NoDup rev_elements_iter_elem
    plain_read_csv plain_read_csv_NoDup plain_read_csv_rows parse_iso TODAY.

(** ** Sample directories *)

Definition file_tx : file := mkFile "tx.csv"
  ["Export of account 42"; "ID,Timestamp,Transaction Type,Amount"; "1,2024-01-05,buy,10"; "2,2024-01-10,sell,7"].

Definition file_tx2 : file := mkFile "tx2.csv"
  ["ID,Timestamp,Transaction Type,Amount"; "3,2024-02-01,buy,5"].

Definition file_fee : file := mkFile "fee.csv"
  ["ID,Timestamp,Transaction Type,Amount,Fee"; "4,2024-03-01,buy,8,0.5"].

Definition file_badts : file := mkFile "ledger.csv"
  ["ID,Timestamp,Transaction Type"; "1,garbage,buy"].

Definition file_created : file := mkFile "export.csv"
  ["ID,Timestamp,Transaction Type,created_at"; "2,2024-02-01,sell,2024-02-01"].

Definition file_nomarker : file := mkFile "notes.csv" ["Name,Value"; "a,1"].

Definition file_nomarker2 : file := mkFile "summary.csv" ["Report"; "Total,3"].

(** ** Derived notions used to state the properties *)

(** What [read_csv_with_metadata] returns or raises, without its effects. *)
Definition read_frame (rt : Runtime) (f : file) : string + frame :=
  match find_header 0 (flines f) with
  | None => inl "Could not find CSV headers"
  | Some header_index => read_csv rt (drop header_index (flines f))
  end.

(** [set(df.columns)]. *)
Definition colset (df : frame) : gset string := list_to_set (columns df).

(** The [headers_by_file] dict after the header pass. *)
Definition headers_dict (dfof : file -> frame) (files : list file) (d : dict) : dict :=
  fold_left (fun d f => dict_set f (colset (dfof f)) d) files d.

(** The [all_headers] set after the header pass. *)
Definition headers_union (dfof : file -> frame) (files : list file) (acc : gset string) :=
  fold_left (fun acc f => acc ∪ colset (dfof f)) files acc.

(** The cell of row [r] under column [c] in a table with labels [cols];
    missing when the table has no such column. *)
Definition cell_of (cols : list string) (r : list cell) (c : string) : cell :=
  match col_index c cols with
  | Some i => default None (r !! i)
  | None => None
  end.

(** Each row of each file, in order, laid out on the columns [cols]. *)
Definition output_rows (cols : list string) (dfs : list frame) : list (list cell) :=
  List.concat (map (fun df => map (fun r => map (cell_of (columns df) r) cols) (rows df)) dfs).

(** The warnings of lines 141-144. *)
Definition extra_warnings (rt : Runtime) (d : dict) (base : gset string) : list event :=
  omap (fun '(f, h) => if decide (h ∖ base = ∅) then None
                       else Some (LogAdditional (fname f) (set_iter rt (h ∖ base)))) d.

Definition add_log (s : state) (evs : list event) : state :=
  mkState (st_log s ++ evs) (st_stdin s) (st_fs s).

(** What a run does to [data/processed/]: nothing, or one file written. *)
Definition apply_write (w : option (string * string)) (fs : gmap string string) :=
  match w with
  | None => fs
  | Some (p, c) => <[p := c]> fs
  end.

(** The events of the schema check (lines 140-149): its warnings, the
    question on standard input and the answer read. *)
Definition schema_event (ev : event) : bool :=
  match ev with
  | LogDifferentHeaders | LogAdditional _ _ | LogPrompt _ _ | LogCommonOnly => true
  | _ => false
  end.

(** Two log lines that are the same but for the order in which an
    [Additional headers] warning lists the file's extra columns. *)
Definition same_but_listing (ev1 ev2 : event) : Prop :=
  match ev1, ev2 with
  | LogAdditional f1 l1, LogAdditional f2 l2 => f1 = f2 /\ l1 ≡ₚ l2
  | _, _ => ev1 = ev2
  end.

(** The events of the merge loop's skip (line 163) and of the empty
    merge (line 167). *)
Definition merge_skip_event (ev : event) : bool :=
  match ev with
  | LogMergeError _ _ | LogNoValid => true
  | _ => false
  end.

(** ** Monad facts *)

Section Monad_facts.
Context {A B : Type}.

Lemma bind_Ok (m : M A) (k : A -> M B) s a s' :
  m s = (Ok a, s') -> (m ≫= k) s = k a s'.
Proof. intros H. unfold mbind, M_bind. by rewrite H. Qed.

Lemma bind_Exc (m : M A) (k : A -> M B) s e s' :
  m s = (Exc e, s') -> (m ≫= k) s = (Exc e, s').
Proof. intros H. unfold mbind, M_bind. by rewrite H. Qed.

Lemma try_Ok (m : M A) h s a s' :
  m s = (Ok a, s') -> try_except m h s = (Ok a, s').
Proof. intros H. unfold try_except. by rewrite H. Qed.

Lemma try_Exc (m : M A) h s e s' :
  m s = (Exc e, s') -> try_except m h s = h e s'.
Proof. intros H. unfold try_except. by rewrite H. Qed.

Lemma bind_inv_Ok (m : M A) (k : A -> M B) s b s'' :
  (m ≫= k) s = (Ok b, s'') -> exists a s', m s = (Ok a, s') /\ k a s' = (Ok b, s'').
Proof.
  unfold mbind, M_bind. destruct (m s) as [[a|e] s']; [|discriminate]. eauto.
Qed.
End Monad_facts.

Lemma add_log_app s l1 l2 : add_log (add_log s l1) l2 = add_log s (l1 ++ l2).
Proof. destruct s; unfold add_log; simpl. by rewrite app_assoc. Qed.

Lemma add_log_nil s : add_log s [] = s.
Proof. destruct s; unfold add_log; simpl. by rewrite app_nil_r. Qed.

(** A computation that leaves [data/processed/] alone and whose outcome,
    log and input do not depend on it. *)
Definition fs_pure {A} (m : M A) : Prop :=
  forall lg inp, exists r lg' inp', forall fs,
    m (mkState lg inp fs) = (r, mkState lg' inp' fs).

Section Fs_pure.
Context {A B : Type}.

Lemma fs_pure_ret (a : A) : fs_pure (mret a).
Proof. intros lg inp. by exists (Ok a), lg, inp. Qed.

Lemma fs_pure_raise e : fs_pure (raise (A:=A) e).
Proof. intros lg inp. by exists (Exc e), lg, inp. Qed.

Lemma fs_pure_log ev : fs_pure (log ev).
Proof. intros lg inp. by exists (Ok tt), (lg ++ [ev]), inp. Qed.

Lemma fs_pure_input q : fs_pure (input q).
Proof.
  intros lg inp. destruct inp as [|l rest].
  - by exists (Exc "EOFError"), lg, [].
  - by exists (Ok l), (lg ++ [LogPrompt q l]), rest.
Qed.

Lemma fs_pure_bind (m : M A) (k : A -> M B) :
  fs_pure m -> (forall a, fs_pure (k a)) -> fs_pure (m ≫= k).
Proof.
  intros Hm Hk lg inp. destruct (Hm lg inp) as (r & lg' & inp' & H).
  destruct r as [a|e].
  - destruct (Hk a lg' inp') as (r2 & lg2 & inp2 & H2).
    exists r2, lg2, inp2. intros fs. by rewrite (bind_Ok _ _ _ _ _ (H fs)).
  - exists (Exc e), lg', inp'. intros fs. by rewrite (bind_Exc _ _ _ _ _ (H fs)).
Qed.

Lemma fs_pure_try (m : M A) h :
  fs_pure m -> (forall e, fs_pure (h e)) -> fs_pure (try_except m h).
Proof.
  intros Hm Hh lg inp. destruct (Hm lg inp) as (r & lg' & inp' & H).
  destruct r as [a|e].
  - exists (Ok a), lg', inp'. intros fs. by rewrite (try_Ok _ _ _ _ _ (H fs)).
  - destruct (Hh e lg' inp') as (r2 & lg2 & inp2 & H2).
    exists r2, lg2, inp2. intros fs. by rewrite (try_Exc _ _ _ _ _ (H fs)).
Qed.
End Fs_pure.

Lemma fs_pure_for {X} (l : list X) body :
  (forall x, fs_pure (body x)) -> fs_pure (for_ l body).
Proof.
  intros Hb. induction l as [|x l IH]; simpl.
  - apply fs_pure_ret.
  - apply fs_pure_bind; [apply Hb | intros; apply IH].
Qed.

Create HintDb fs_pure_db.
#[export] Hint Resolve fs_pure_ret fs_pure_raise fs_pure_log fs_pure_input
  fs_pure_bind fs_pure_try fs_pure_for : fs_pure_db.

Ltac solve_fs_pure :=
  repeat (intros; match goal with
    | |- fs_pure (match ?x with _ => _ end) => destruct x
    | |- fs_pure (mbind _ _) => apply fs_pure_bind
    | |- fs_pure (try_except _ _) => apply fs_pure_try
    | |- fs_pure (for_ _ _) => apply fs_pure_for
    | |- fs_pure _ => solve [eauto with fs_pure_db]
    end).

Lemma read_csv_with_metadata_fs_pure rt f : fs_pure (read_csv_with_metadata rt f).
Proof. unfold read_csv_with_metadata. solve_fs_pure. Qed.
#[export] Hint Resolve read_csv_with_metadata_fs_pure : fs_pure_db.

Lemma get_all_headers_loop_fs_pure rt files a d : fs_pure (get_all_headers_loop rt files a d).
Proof.
  revert a d. induction files as [|f files IH]; intros a d; simpl; solve_fs_pure.
Qed.
#[export] Hint Resolve get_all_headers_loop_fs_pure : fs_pure_db.

Lemma reconcile_fs_pure rt first a d : fs_pure (reconcile rt first a d).
Proof. unfold reconcile. solve_fs_pure. Qed.
#[export] Hint Resolve reconcile_fs_pure : fs_pure_db.

Lemma merge_loop_fs_pure rt a files dfs : fs_pure (merge_loop rt a files dfs).
Proof.
  revert dfs. induction files as [|f files IH]; intros dfs; simpl; solve_fs_pure.
Qed.
#[export] Hint Resolve merge_loop_fs_pure : fs_pure_db.

Lemma strftime_fs_pure s : fs_pure (strftime s).
Proof. unfold strftime. solve_fs_pure. Qed.
#[export] Hint Resolve strftime_fs_pure : fs_pure_db.

Lemma choose_output_filename_fs_pure rt o dfs : fs_pure (choose_output_filename rt o dfs).
Proof. unfold choose_output_filename, generate_date_range_filename. solve_fs_pure. Qed.
#[export] Hint Resolve choose_output_filename_fs_pure : fs_pure_db.

Lemma prepare_fs_pure rt o first files : fs_pure (prepare rt o first files).
Proof. unfold prepare, get_all_headers. solve_fs_pure. Qed.

Lemma prepare_final_df rt o first files s p T n s' :
  prepare rt o first files s = (Ok (Some (p, T, n)), s') ->
  exists A dfs, T = reindex (set_iter rt A) (concat_frames dfs).
Proof.
  unfold prepare. intros H.
  apply bind_inv_Ok in H as ([a d] & s1 & _ & H).
  apply bind_inv_Ok in H as (A & s2 & _ & H).
  apply bind_inv_Ok in H as (dfs & s3 & _ & H).
  destruct dfs as [|df dfs']; [by apply bind_inv_Ok in H as (? & ? & _ & ?)|].
  apply bind_inv_Ok in H as (name & s4 & _ & H).
  injection H as <- <- <- <-. eauto.
Qed.

(** The shape of every run: its outcome, log and input do not depend on
    the files already in [data/processed/]; it writes at most one file,
    [to_csv] of a table [reindex (list(all_headers)) (pd.concat dfs)], and
    writing it is followed by no exception. *)
Lemma consolidate_csvs_shape rt o files lg inp :
  exists r lg' inp' (w : option (string * frame)),
    (forall fs, consolidate_csvs rt o files (mkState lg inp fs) =
       (r, mkState lg' inp' (apply_write (option_map (fun '(p, T) => (p, to_csv T)) w) fs))) /\
    (forall p T, w = Some (p, T) -> r = Ok tt /\
       exists A dfs, T = reindex (set_iter rt A) (concat_frames dfs)).
Proof.
  destruct files as [|first rest].
  - exists (Ok tt), (lg ++ [LogNoFiles]), inp, None. split; [done|discriminate].
  - set (lg1 := lg ++ [LogFound (length (first :: rest))]).
    destruct (prepare_fs_pure rt o first (first :: rest) lg1 inp) as (r & lg2 & inp2 & Hp).
    destruct r as [[[[p T] n]|]|e].
    + exists (Ok tt),
        (lg2 ++ [LogConsolidated n p; LogTotalRows (length (rows T));
                 LogTotalColumns (length (columns T))]), inp2, (Some (p, T)).
      split.
      * intros fs. unfold consolidate_csvs. rewrite (bind_Ok _ _ _ tt (mkState lg1 inp fs)) by done.
        rewrite (try_Ok _ _ _ tt (mkState (lg2 ++ [LogConsolidated n p; LogTotalRows (length (rows T));
                 LogTotalColumns (length (columns T))]) inp2 (<[p := to_csv T]> fs))); [done|].
        rewrite (bind_Ok _ _ _ _ _ (Hp fs)). simpl.
        unfold mbind, M_bind, write_file, log. simpl. by rewrite <- !app_assoc.
      * intros p' T' [= <- <-]. split; [done|].
        exact (prepare_final_df _ _ _ _ _ _ _ _ _ (Hp ∅)).
    + exists (Ok tt), lg2, inp2, None. split; [|discriminate].
      intros fs. unfold consolidate_csvs. rewrite (bind_Ok _ _ _ tt (mkState lg1 inp fs)) by done.
      apply try_Ok. by rewrite (bind_Ok _ _ _ _ _ (Hp fs)).
    + exists (Exc e), (lg2 ++ [LogOccurred e]), inp2, None. split; [|discriminate].
      intros fs. unfold consolidate_csvs. rewrite (bind_Ok _ _ _ tt (mkState lg1 inp fs)) by done.
      rewrite (try_Exc _ _ _ e (mkState lg2 inp2 fs)); [done|].
      by rewrite (bind_Exc _ _ _ _ _ (Hp fs)).
Qed.

Lemma reindex_rows_length cols rs :
  Forall (fun r => length r = length (columns (reindex cols rs))) (rows (reindex cols rs)).
Proof.
  simpl. apply Forall_forall. intros r Hr. apply list_elem_of_fmap in Hr as (r0 & -> & _).
  apply length_map.
Qed.

(** ** The claims *)

(** C3: whenever a run writes its output file, the file is the CSV text of
    a table whose header is the final column list ([list(all_headers)],
    without repetition) and in which every row holds exactly one cell,
    possibly missing, per column of that header. *)
Theorem consolidated_rows_complete rt o files lg inp :
  exists w : option (string * frame),
    (forall fs, st_fs (consolidate_csvs rt o files (mkState lg inp fs)).2 =
                apply_write (option_map (fun '(p, T) => (p, to_csv T)) w) fs) /\
    (forall p T, w = Some (p, T) ->
       exists A : gset string, columns T = set_iter rt A /\ NoDup (columns T) /\
         Forall (fun r => length r = length (columns T)) (rows T)).
Proof.
  destruct (consolidate_csvs_shape rt o files lg inp) as (r & lg' & inp' & w & Hrun & Hw).
  exists w. split.
  - intros fs. by rewrite Hrun.
  - intros p T HT. destruct (Hw p T HT) as (_ & A & dfs & ->).
    exists A. split; [done|]. split; [apply set_iter_NoDup|]. apply reindex_rows_length.
Qed.

(** C10: a run's outcome, log and use of standard input do not depend on
    the files already in [data/processed/]; the only change it makes there
    is writing at most one file, which then holds the new contents whether
    or not a file of that name existed, and a run that writes raises no
    exception. *)
Theorem consolidate_overwrites_existing_output rt o files lg inp :
  exists r lg' inp' (w : option (string * string)),
    (forall fs, consolidate_csvs rt o files (mkState lg inp fs) =
                (r, mkState lg' inp' (apply_write w fs))) /\
    (forall p c, w = Some (p, c) -> r = Ok tt /\
       forall fs, apply_write w fs !! p = Some c).
Proof.
  destruct (consolidate_csvs_shape rt o files lg inp) as (r & lg' & inp' & w & Hrun & Hw).
  exists r, lg', inp', (option_map (fun '(p, T) => (p, to_csv T)) w). split; [exact Hrun|].
  intros p c Hpc. destruct w as [[p' T]|]; [|discriminate]. simpl in Hpc.
  injection Hpc as <- <-. split; [by destruct (Hw p' T eq_refl)|].
  intros fs. simpl. apply lookup_insert_eq.
Qed.

(** ** The stages on readable and unreadable files *)

Lemma read_csv_with_metadata_inr rt f df s :
  read_frame rt f = inr df -> read_csv_with_metadata rt f s = (Ok df, s).
Proof.
  unfold read_frame, read_csv_with_metadata. intros H. apply try_Ok.
  destruct (find_header 0 (flines f)); [|discriminate]. by rewrite H.
Qed.

Lemma read_csv_with_metadata_inl rt f e s :
  read_frame rt f = inl e ->
  read_csv_with_metadata rt f s = (Exc e, add_log s [LogErrorReading (fname f) e]).
Proof.
  unfold read_frame, read_csv_with_metadata. intros H.
  rewrite (try_Exc _ _ s e s).
  - unfold mbind, M_bind, log, raise. by destruct s.
  - destruct (find_header 0 (flines f)); [|by injection H as <-]. by rewrite H.
Qed.

Lemma get_all_headers_loop_ok rt dfof files a d s :
  (forall f, f ∈ files -> read_frame rt f = inr (dfof f)) ->
  get_all_headers_loop rt files a d s =
  (Ok (headers_union dfof files a, headers_dict dfof files d), s).
Proof.
  revert a d. induction files as [|f files IH]; intros a d Hr; [done|]. simpl.
  rewrite (bind_Ok _ _ _ (a ∪ colset (dfof f), dict_set f (colset (dfof f)) d) s).
  - apply IH. intros g Hg. apply Hr. by right.
  - apply try_Ok. rewrite (bind_Ok _ _ _ (dfof f) s); [done|].
    apply read_csv_with_metadata_inr, Hr. by left.
Qed.

Lemma get_all_headers_loop_err rt dfof pre f post e a d s :
  (forall g, g ∈ pre -> read_frame rt g = inr (dfof g)) ->
  read_frame rt f = inl e ->
  get_all_headers_loop rt (pre ++ f :: post) a d s =
  (Exc e, add_log s [LogErrorReading (fname f) e; LogErrorHeaders (fname f) e]).
Proof.
  revert a d. induction pre as [|g pre IH]; intros a d Hpre Hf; simpl.
  - apply bind_Exc. rewrite (try_Exc _ _ s e (add_log s [LogErrorReading (fname f) e])).
    + unfold mbind, M_bind, log, raise, add_log. simpl. by rewrite <- app_assoc.
    + apply bind_Exc. by apply read_csv_with_metadata_inl.
  - rewrite (bind_Ok _ _ _ (a ∪ colset (dfof g), dict_set g (colset (dfof g)) d) s).
    + apply IH; [|done]. intros h Hh. apply Hpre. by right.
    + apply try_Ok. rewrite (bind_Ok _ _ _ (dfof g) s); [done|].
      apply read_csv_with_metadata_inr, Hpre. by left.
Qed.

Lemma merge_loop_ok rt dfof a files dfs s :
  (forall f, f ∈ files -> read_frame rt f = inr (dfof f)) ->
  merge_loop rt a files dfs s =
  (Ok (dfs ++ map (fun f => add_missing rt a (dfof f)) files),
   add_log s (map (fun f => LogRead (fname f)) files)).
Proof.
  revert dfs s. induction files as [|f files IH]; intros dfs s Hr; simpl.
  - by rewrite app_nil_r, add_log_nil.
  - rewrite (bind_Ok _ _ _ (dfs ++ [add_missing rt a (dfof f)]) (add_log s [LogRead (fname f)])).
    + rewrite IH, add_log_app, <- app_assoc; [done|]. intros g Hg. apply Hr. by right.
    + apply try_Ok. rewrite (bind_Ok _ _ _ (dfof f) s).
      * unfold mbind, M_bind, log. by destruct s.
      * apply read_csv_with_metadata_inr, Hr. by left.
Qed.

Lemma dict_get_set k k' v d :
  dict_get k (dict_set k' v d) = if decide (k = k') then Some v else dict_get k d.
Proof.
  induction d as [|[k0 v0] d IH]; simpl.
  - done.
  - destruct (decide (k' = k0)) as [->|Hne]; simpl.
    + by destruct (decide (k = k0)).
    + rewrite IH. destruct (decide (k = k0)), (decide (k = k')); subst; done.
Qed.

Lemma dict_get_headers_dict dfof files d k :
  dict_get k (headers_dict dfof files d) =
  if decide (k ∈ files) then Some (colset (dfof k)) else dict_get k d.
Proof.
  unfold headers_dict. revert d. induction files as [|f files IH]; intros d; simpl.
  - destruct (decide (k ∈ [])) as [H|]; [inversion H|done].
  - rewrite IH, dict_get_set.
    destruct (decide (k ∈ files)), (decide (k ∈ f :: files)), (decide (k = f));
      subst; set_solver.
Qed.

Lemma dict_get_elem k v d : dict_get k d = Some v -> (k, v) ∈ d.
Proof.
  induction d as [|[k0 v0] d IH]; simpl; [discriminate|].
  destruct (decide (k = k0)) as [->|]; [intros [= ->]; left|intros H; right; auto].
Qed.

Lemma for_warnings rt (d : dict) base s :
  for_ d (fun '(file, headers) =>
    let diff := headers ∖ base in
    if decide (diff = ∅) then mret tt else log (LogAdditional (fname file) (set_iter rt diff))) s =
  (Ok tt, add_log s (extra_warnings rt d base)).
Proof.
  revert s. induction d as [|[f h] d IH]; intros s; simpl.
  - by rewrite add_log_nil.
  - unfold extra_warnings in *. simpl. destruct (decide (h ∖ base = ∅)).
    + rewrite (bind_Ok _ _ _ tt s); [apply IH|done].
    + rewrite (bind_Ok _ _ _ tt (add_log s [LogAdditional (fname f) (set_iter rt (h ∖ base))])).
      * by rewrite IH, add_log_app.
      * by destruct s.
Qed.

Lemma reconcile_same rt first all d base s :
  dict_get first d = Some base -> all ∖ base = ∅ ->
  reconcile rt first all d s = (Ok all, s).
Proof.
  intros Hb He. unfold reconcile. rewrite Hb. cbn zeta.
  by destruct (decide (all ∖ base = ∅)).
Qed.

Lemma reconcile_prompt rt first all d base s l rest :
  dict_get first d = Some base -> all ∖ base ≠ ∅ -> st_stdin s = l :: rest ->
  reconcile rt first all d s =
  (Ok (if String.eqb (py_lower l) "y" then all else base),
   mkState (st_log s ++ [LogDifferentHeaders] ++ extra_warnings rt d base ++
            [LogPrompt QUESTION l] ++
            (if String.eqb (py_lower l) "y" then [] else [LogCommonOnly]))
           rest (st_fs s)).
Proof.
  intros Hb He Hin. unfold reconcile. rewrite Hb. cbn zeta.
  destruct (decide (all ∖ base = ∅)); [done|].
  rewrite (bind_Ok _ _ _ tt (add_log s [LogDifferentHeaders])) by (by destruct s).
  rewrite (bind_Ok _ _ _ tt (add_log s ([LogDifferentHeaders] ++ extra_warnings rt d base))).
  2: { rewrite for_warnings. by rewrite add_log_app. }
  rewrite (bind_Ok _ _ _ l (mkState ((st_log s ++ ([LogDifferentHeaders] ++ extra_warnings rt d base)) ++
            [LogPrompt QUESTION l]) rest (st_fs s))).
  2: { unfold input, add_log. simpl. by rewrite Hin. }
  destruct (String.eqb (py_lower l) "y");
    unfold mret, M_ret, mbind, M_bind, log; simpl; rewrite ?app_nil_r, <- ?app_assoc; done.
Qed.

Lemma reconcile_eof rt first all d base s :
  dict_get first d = Some base -> all ∖ base ≠ ∅ -> st_stdin s = [] ->
  reconcile rt first all d s =
  (Exc "EOFError", add_log s ([LogDifferentHeaders] ++ extra_warnings rt d base)).
Proof.
  intros Hb He Hin. unfold reconcile. rewrite Hb. cbn zeta.
  destruct (decide (all ∖ base = ∅)); [done|].
  rewrite (bind_Ok _ _ _ tt (add_log s [LogDifferentHeaders])) by (by destruct s).
  rewrite (bind_Ok _ _ _ tt (add_log s ([LogDifferentHeaders] ++ extra_warnings rt d base))).
  2: { rewrite for_warnings. by rewrite add_log_app. }
  apply bind_Exc. unfold input, add_log. simpl. by rewrite Hin.
Qed.

(** The output file name, or the exception raised while choosing it. *)
Definition name_result (rt : Runtime) (o : option string) (dfs : list frame) : result string :=
  fst (choose_output_filename rt o dfs (mkState [] [] ∅)).

Lemma choose_output_filename_state rt o dfs s :
  choose_output_filename rt o dfs s = (name_result rt o dfs, s).
Proof.
  unfold name_result, choose_output_filename, generate_date_range_filename.
  destruct o; [reflexivity|]. cbn zeta.
  destruct (omap (get_csv_date rt) dfs) as [|x xs]; [reflexivity|].
  destruct (py_min x xs), (py_max x xs); reflexivity.
Qed.

(** A run on a directory whose files all carry the marker and parse:
    after the header pass, the schema check decides the column set [A];
    every file is then merged, padded to [A]. *)
Lemma consolidate_csvs_readable rt o first rest dfof lg inp fs :
  (forall f, f ∈ first :: rest -> read_frame rt f = inr (dfof f)) ->
  consolidate_csvs rt o (first :: rest) (mkState lg inp fs) =
  match reconcile rt first (headers_union dfof (first :: rest) ∅)
          (headers_dict dfof (first :: rest) [])
          (mkState (lg ++ [LogFound (length (first :: rest))]) inp fs) with
  | (Exc e, s1) => (Exc e, add_log s1 [LogOccurred e])
  | (Ok A, s1) =>
      let dfs := map (fun f => add_missing rt A (dfof f)) (first :: rest) in
      let T := reindex (set_iter rt A) (concat_frames dfs) in
      let s2 := add_log s1 (map (fun f => LogRead (fname f)) (first :: rest)) in
      match name_result rt o dfs with
      | Exc e => (Exc e, add_log s2 [LogOccurred e])
      | Ok p => (Ok tt, mkState (st_log s2 ++ [LogConsolidated (length (first :: rest)) p;
                                               LogTotalRows (length (rows T));
                                               LogTotalColumns (length (columns T))])
                                (st_stdin s2) (<[p := to_csv T]> (st_fs s2)))
      end
  end.
Proof.
  intros Hr. unfold consolidate_csvs.
  rewrite (bind_Ok _ _ _ tt (mkState (lg ++ [LogFound (length (first :: rest))]) inp fs)) by done.
  set (s0 := mkState (lg ++ [LogFound (length (first :: rest))]) inp fs).
  assert (Hp : forall (k : gset string * dict -> M (option (string * frame * nat))),
    (get_all_headers rt (first :: rest) ≫= k) s0 =
    k (headers_union dfof (first :: rest) ∅, headers_dict dfof (first :: rest) []) s0).
  { intros k. apply bind_Ok. by apply get_all_headers_loop_ok. }
  destruct (reconcile rt first _ _ s0) as [[A|e] s1] eqn:Hrec.
  - cbn zeta.
    set (dfs := map (fun f => add_missing rt A (dfof f)) (first :: rest)).
    assert (Hm : merge_loop rt A (first :: rest) [] s1 =
                 (Ok dfs, add_log s1 (map (fun f => LogRead (fname f)) (first :: rest)))).
    { by rewrite (merge_loop_ok rt dfof). }
    set (s2 := add_log s1 (map (fun f => LogRead (fname f)) (first :: rest))).
    assert (Hprep : prepare rt o first (first :: rest) s0 =
      match name_result rt o dfs with
      | Ok p => (Ok (Some (p, reindex (set_iter rt A) (concat_frames dfs), length dfs)), s2)
      | Exc e => (Exc e, s2)
      end).
    { unfold prepare. rewrite Hp. cbn beta iota.
      rewrite (bind_Ok _ _ _ A s1 Hrec).
      rewrite (bind_Ok _ _ _ dfs _ Hm). unfold dfs at 1. simpl.
      unfold mbind at 1, M_bind at 1. rewrite choose_output_filename_state.
      by destruct (name_result rt o dfs). }
    unfold try_except, mbind at 1, M_bind at 1. rewrite Hprep.
    destruct (name_result rt o dfs) as [p|e].
    + unfold mbind, M_bind, write_file, log, add_log in *. simpl.
      unfold s2, dfs. simpl. rewrite length_map. by rewrite <- !app_assoc.
    + unfold mbind, M_bind, log, raise. by destruct s2.
  - rewrite (try_Exc _ _ _ e s1); [by destruct s1|].
    apply bind_Exc. unfold prepare. rewrite Hp. cbn beta iota. by apply bind_Exc.
Qed.

(** A run on a directory where some file cannot be read: the header pass
    raises at the first such file, and the run ends there. *)
Lemma consolidate_csvs_unreadable rt o pre f post dfof e lg inp fs :
  (forall g, g ∈ pre -> read_frame rt g = inr (dfof g)) ->
  read_frame rt f = inl e ->
  consolidate_csvs rt o (pre ++ f :: post) (mkState lg inp fs) =
  (Exc e, mkState (lg ++ [LogFound (length (pre ++ f :: post));
                          LogErrorReading (fname f) e; LogErrorHeaders (fname f) e;
                          LogOccurred e]) inp fs).
Proof.
  intros Hpre Hf. unfold consolidate_csvs.
  destruct (pre ++ f :: post) as [|first rest] eqn:Hfiles; [by destruct pre|].
  rewrite (bind_Ok _ _ _ tt (mkState (lg ++ [LogFound (length (first :: rest))]) inp fs)) by done.
  rewrite (try_Exc _ _ _ e (add_log (mkState (lg ++ [LogFound (length (first :: rest))]) inp fs)
                              [LogErrorReading (fname f) e; LogErrorHeaders (fname f) e])).
  - unfold mbind, M_bind, log, raise, add_log. simpl. by rewrite <- !app_assoc.
  - apply bind_Exc. unfold prepare, get_all_headers. rewrite <- Hfiles.
    apply bind_Exc. by apply (get_all_headers_loop_err rt dfof).
Qed.

(** The file's frame when it can be read. *)
Definition frame_of (rt : Runtime) (f : file) : frame :=
  match read_frame rt f with
  | inr df => df
  | inl _ => mkFrame [] []
  end.

Lemma first_unreadable rt files :
  (exists f e, f ∈ files /\ read_frame rt f = inl e) ->
  exists pre f post e, files = pre ++ f :: post /\
    (forall g, g ∈ pre -> read_frame rt g = inr (frame_of rt g)) /\
    read_frame rt f = inl e.
Proof.
  induction files as [|h files IH]; intros (f & e & Hin & Hf); [inversion Hin|].
  destruct (read_frame rt h) as [e'|df] eqn:Hh.
  - exists [], h, files, e'. split; [done|]. split; [intros g Hg; inversion Hg|done].
  - apply elem_of_cons in Hin as [->|Hin]; [congruence|].
    destruct IH as (pre & f' & post & e'' & -> & Hpre & Hf'); [eauto|].
    exists (h :: pre), f', post, e''. split; [done|]. split; [|done].
    intros g Hg. apply elem_of_cons in Hg as [->|Hg]; [|by apply Hpre].
    unfold frame_of. by rewrite Hh.
Qed.

Lemma no_marker_unreadable rt f :
  find_header 0 (flines f) = None -> read_frame rt f = inl "Could not find CSV headers".
Proof. unfold read_frame. by intros ->. Qed.

Ltac not_in_log :=
  let H := fresh in
  intros H;
  repeat (apply elem_of_cons in H as [H|H];
          [first [discriminate | injection H as ?H; discriminate |
                  injection H as ?H ?H; discriminate] |]);
  by apply elem_of_nil in H.

(** C2 (as amended): when some discovered file lacks the header marker,
    the header pass raises at the first file that cannot be read (in
    discovery order) after logging it, and the run aborts: no file is
    merged, no question is asked and nothing is written. *)
Theorem missing_marker_aborts_run rt o files f stdin fs :
  f ∈ files -> find_header 0 (flines f) = None ->
  exists pre g post e, files = pre ++ g :: post /\
    (forall h, h ∈ pre -> exists df, read_frame rt h = inr df) /\
    read_frame rt g = inl e /\
    run rt o files stdin fs =
    (Exc e, mkState [LogFound (length files); LogErrorReading (fname g) e;
                     LogErrorHeaders (fname g) e; LogOccurred e] stdin fs).
Proof.
  intros Hin Hno.
  destruct (first_unreadable rt files) as (pre & g & post & e & -> & Hpre & Hg).
  { exists f, "Could not find CSV headers". split; [done|]. by apply no_marker_unreadable. }
  exists pre, g, post, e. split; [done|]. split; [intros h Hh; eexists; by apply Hpre|].
  split; [done|].
  unfold run. by rewrite (consolidate_csvs_unreadable rt o pre g post (frame_of rt) e).
Qed.

Lemma missing_marker_aborts_run_witness :
  file_nomarker ∈ [file_tx; file_nomarker] /\ find_header 0 (flines file_nomarker) = None /\
  exists pre g post e, [file_tx; file_nomarker] = pre ++ g :: post /\
    (forall h, h ∈ pre -> exists df, read_frame rt_a h = inr df) /\
    read_frame rt_a g = inl e /\
    run rt_a (Some "out") [file_tx; file_nomarker] [] ∅ =
    (Exc e, mkState [LogFound (length [file_tx; file_nomarker]); LogErrorReading (fname g) e;
                     LogErrorHeaders (fname g) e; LogOccurred e] [] ∅).
Proof.
  split; [set_solver|]. split; [reflexivity|].
  apply (missing_marker_aborts_run rt_a (Some "out") [file_tx; file_nomarker] file_nomarker [] ∅);
    [set_solver | reflexivity].
Defined.

(** C2, as stated, fails: [tx.csv] carries the marker and [notes.csv] does
    not, yet the run raises and writes no output file instead of merging
    [tx.csv] alone. *)
Lemma missing_marker_not_skipped :
  find_header 0 (flines file_tx) = Some 1%nat /\
  find_header 0 (flines file_nomarker) = None /\
  run rt_a (Some "out") [file_tx; file_nomarker] [] ∅ =
  (Exc "Could not find CSV headers",
   mkState [LogFound 2; LogErrorReading "notes.csv" "Could not find CSV headers";
            LogErrorHeaders "notes.csv" "Could not find CSV headers";
            LogOccurred "Could not find CSV headers"] [] ∅).
Proof. split; [|split]; vm_compute; reflexivity. Qed.

(** C7 (as amended): when no file carries the header marker the run
    aborts with the exception, after logging the failure of the first
    discovered file only (the others are never read); nothing is written
    and standard input is not read. *)
Theorem all_missing_marker_aborts rt o first rest stdin fs :
  (forall f, f ∈ first :: rest -> find_header 0 (flines f) = None) ->
  run rt o (first :: rest) stdin fs =
  (Exc "Could not find CSV headers",
   mkState [LogFound (length (first :: rest));
            LogErrorReading (fname first) "Could not find CSV headers";
            LogErrorHeaders (fname first) "Could not find CSV headers";
            LogOccurred "Could not find CSV headers"] stdin fs).
Proof.
  intros Hno. unfold run.
  apply (consolidate_csvs_unreadable rt o [] first rest (frame_of rt)).
  - intros g Hg. inversion Hg.
  - apply no_marker_unreadable, Hno. by left.
Qed.

Lemma all_missing_marker_aborts_witness :
  (forall f, f ∈ [file_nomarker; file_nomarker2] -> find_header 0 (flines f) = None) /\
  run rt_a None [file_nomarker; file_nomarker2] ["y"] ∅ =
  (Exc "Could not find CSV headers",
   mkState [LogFound 2;
            LogErrorReading "notes.csv" "Could not find CSV headers";
            LogErrorHeaders "notes.csv" "Could not find CSV headers";
            LogOccurred "Could not find CSV headers"] ["y"] ∅).
Proof.
  assert (H : forall f, f ∈ [file_nomarker; file_nomarker2] -> find_header 0 (flines f) = None).
  { intros f Hf. apply elem_of_cons in Hf as [->|Hf]; [reflexivity|].
    apply elem_of_cons in Hf as [->|Hf]; [reflexivity|]. by apply elem_of_nil in Hf. }
  split; [exact H|].
  exact (all_missing_marker_aborts rt_a None file_nomarker [file_nomarker2] ["y"] ∅ H).
Defined.

(** C7, as stated, fails: both files lack the marker, but only the
    failure of [notes.csv] is logged before the run aborts. *)
Lemma all_missing_marker_logs_first_only :
  find_header 0 (flines file_nomarker) = None /\
  find_header 0 (flines file_nomarker2) = None /\
  (run rt_a None [file_nomarker; file_nomarker2] [] ∅).1 = Exc "Could not find CSV headers" /\
  st_fs (run rt_a None [file_nomarker; file_nomarker2] [] ∅).2 = ∅ /\
  forall e, (LogErrorReading "summary.csv" e ∉ st_log (run rt_a None [file_nomarker; file_nomarker2] [] ∅).2) /\
            (LogErrorHeaders "summary.csv" e ∉ st_log (run rt_a None [file_nomarker; file_nomarker2] [] ∅).2) /\
            (LogMergeError "summary.csv" e ∉ st_log (run rt_a None [file_nomarker; file_nomarker2] [] ∅).2).
Proof.
  split; [reflexivity|]. split; [reflexivity|]. split; [vm_compute; reflexivity|].
  split; [vm_compute; reflexivity|].
  intros e. vm_compute. split; [|split]; not_in_log.
Qed.

(** ** Cells through padding, [pd.concat] and [reindex] *)

Lemma lookup_col_zip c cols (r : list cell) :
  lookup_col c (zip cols r) =
  match col_index c cols with Some i => r !! i | None => None end.
Proof.
  revert r. induction cols as [|c' cols IH]; intros r; [done|].
  destruct r as [|v r]; simpl.
  - destruct (String.eqb c c'); [done|]. by destruct (col_index c cols).
  - destruct (String.eqb c c'); [done|]. rewrite IH. by destruct (col_index c cols).
Qed.

Lemma col_index_lt c cols i : col_index c cols = Some i -> (i < length cols)%nat.
Proof.
  revert i. induction cols as [|c' cols IH]; intros i; simpl; [discriminate|].
  destruct (String.eqb c c'); [intros [= <-]; lia|].
  destruct (col_index c cols) as [j|] eqn:E; simpl; [|discriminate].
  intros [= <-]. specialize (IH j eq_refl). lia.
Qed.

Lemma col_index_app c cols extra :
  col_index c (cols ++ extra) =
  match col_index c cols with
  | Some i => Some i
  | None => (fun j => length cols + j)%nat <$> col_index c extra
  end.
Proof.
  induction cols as [|c' cols IH]; simpl.
  - by destruct (col_index c extra).
  - destruct (String.eqb c c'); [done|]. rewrite IH.
    destruct (col_index c cols); [done|]. by destruct (col_index c extra).
Qed.

(** A column the table lacks reads as a missing value. *)
Lemma cell_of_missing cols r c : c ∉ cols -> cell_of cols r c = None.
Proof.
  intros Hc. unfold cell_of. destruct (col_index c cols) as [i|] eqn:E; [|done].
  exfalso. apply Hc. clear Hc. revert i E.
  induction cols as [|c' cols IH]; intros i; simpl; [discriminate|].
  destruct (String.eqb_spec c c') as [->|Hne]; intros E; apply elem_of_cons; [by left|right].
  destruct (col_index c cols) as [j|]; simpl in E; [|discriminate]. by apply (IH j).
Qed.

Lemma cell_of_pad cols extra (r : list cell) c :
  length r = length cols ->
  cell_of (cols ++ extra) (r ++ replicate (length extra) None) c = cell_of cols r c.
Proof.
  intros Hlen. unfold cell_of. rewrite col_index_app.
  destruct (col_index c cols) as [i|] eqn:E.
  - rewrite lookup_app_l; [done|]. apply col_index_lt in E. lia.
  - destruct (col_index c extra) as [j|] eqn:Ej; simpl; [|done].
    rewrite lookup_app_r by lia. rewrite Hlen.
    replace (length cols + j - length cols)%nat with j by lia.
    by destruct (replicate (length extra) None !! j) as [[]|] eqn:Er;
      [apply lookup_replicate in Er as [? ?]|..].
Qed.

Lemma add_missing_shape rt a df :
  exists extra, columns (add_missing rt a df) = columns df ++ extra /\
    rows (add_missing rt a df) = map (fun r => r ++ replicate (length extra) None) (rows df).
Proof.
  unfold add_missing. generalize (set_iter rt a) as l. intros l. revert df.
  induction l as [|col l IH]; intros df; simpl.
  - exists []. rewrite app_nil_r. split; [done|].
    rewrite <- (map_id (rows df)) at 1. apply map_ext. intros r. by rewrite app_nil_r.
  - destruct (IH (add_column df col)) as (extra & Hc & Hr).
    unfold add_column in *. destruct (decide (col ∈ columns df)).
    + by exists extra.
    + exists (col :: extra). rewrite Hc, Hr. simpl. split; [by rewrite <- app_assoc|].
      rewrite map_map. apply map_ext. intros r. by rewrite <- app_assoc.
Qed.

Lemma read_frame_rows rt f df :
  read_frame rt f = inr df -> Forall (fun r => length r = length (columns df)) (rows df).
Proof.
  unfold read_frame. destruct (find_header 0 (flines f)); [|discriminate].
  apply read_csv_rows.
Qed.

(** The final table of a run in which every file was read: each row of
    each file, in order, laid out on [list(all_headers)]. *)
Lemma final_table_eq rt a dfs :
  Forall (fun df => Forall (fun r => length r = length (columns df)) (rows df)) dfs ->
  reindex (set_iter rt a) (concat_frames (map (add_missing rt a) dfs)) =
  mkFrame (set_iter rt a) (output_rows (set_iter rt a) dfs).
Proof.
  intros Hw. unfold reindex, output_rows, concat_frames. f_equal.
  rewrite concat_map, !map_map. f_equal.
  apply map_ext_in. intros df Hdf. apply list_elem_of_In in Hdf.
  rewrite Forall_forall in Hw. specialize (Hw df Hdf).
  destruct (add_missing_shape rt a df) as (extra & Hc & Hr).
  rewrite Hc, Hr, !map_map. apply map_ext_in. intros r Hr'. apply list_elem_of_In in Hr'.
  rewrite Forall_forall in Hw. specialize (Hw r Hr').
  apply map_ext. intros c. rewrite lookup_col_zip.
  rewrite <- (cell_of_pad (columns df) extra r c Hw). unfold cell_of.
  by destruct (col_index c (columns df ++ extra)).
Qed.

(** ** Runs on readable directories *)

Lemma fs_pure_fs {A} (m : M A) s : fs_pure m -> st_fs (m s).2 = st_fs s.
Proof.
  intros Hm. destruct s as [lg inp fs]. destruct (Hm lg inp) as (r & lg' & inp' & H).
  by rewrite H.
Qed.

Lemma base_headers_dict dfof first rest :
  dict_get first (headers_dict dfof (first :: rest) []) = Some (colset (dfof first)).
Proof.
  rewrite dict_get_headers_dict. destruct (decide (first ∈ first :: rest)) as [|Hn]; [done|].
  exfalso. apply Hn. apply elem_of_cons. by left.
Qed.

Lemma headers_union_subset dfof files acc (B : gset string) :
  (forall f, f ∈ files -> colset (dfof f) ⊆ B) -> acc ⊆ B -> headers_union dfof files acc ⊆ B.
Proof.
  unfold headers_union. revert acc. induction files as [|f files IH]; intros acc Hf Hacc; simpl; [done|].
  apply IH; [intros g Hg; apply Hf; by right|]. apply union_least; [done|]. apply Hf. by left.
Qed.

Lemma headers_union_acc dfof files acc : acc ⊆ headers_union dfof files acc.
Proof.
  unfold headers_union. revert acc. induction files as [|f files IH]; intros acc; simpl; [done|].
  etrans; [|apply IH]. apply union_subseteq_l.
Qed.

Lemma headers_union_elem dfof files acc f :
  f ∈ files -> colset (dfof f) ⊆ headers_union dfof files acc.
Proof.
  unfold headers_union. revert acc. induction files as [|g files IH]; intros acc Hf; simpl.
  - inversion Hf.
  - apply elem_of_cons in Hf as [->|Hf].
    + etrans; [|apply headers_union_acc]. apply union_subseteq_r.
    + by apply IH.
Qed.

Lemma readable_frames rt dfof files :
  (forall f, f ∈ files -> read_frame rt f = inr (dfof f)) ->
  Forall (fun df => Forall (fun r => length r = length (columns df)) (rows df)) (map dfof files).
Proof.
  intros Hr. apply Forall_forall. intros df Hdf.
  apply list_elem_of_In, in_map_iff in Hdf as (f & <- & Hf).
  apply (read_frame_rows rt f), Hr. by apply list_elem_of_In.
Qed.

Lemma reconcile_result rt first all d base s A s' :
  dict_get first d = Some base -> reconcile rt first all d s = (Ok A, s') -> A = all \/ A = base.
Proof.
  intros Hb. unfold reconcile. rewrite Hb. cbn zeta.
  destruct (decide (all ∖ base = ∅)); [intros [= <- _]; by left|].
  intros H. apply bind_inv_Ok in H as (? & ? & _ & H).
  apply bind_inv_Ok in H as (? & ? & _ & H).
  apply bind_inv_Ok in H as (l & ? & _ & H).
  destruct (String.eqb (py_lower l) "y").
  - injection H as <- _. by left.
  - apply bind_inv_Ok in H as (? & ? & _ & H). injection H as <- _. by right.
Qed.

(** [run] on a readable directory, with the final table laid out. *)
Lemma run_readable rt o first rest dfof inp fs :
  (forall f, f ∈ first :: rest -> read_frame rt f = inr (dfof f)) ->
  run rt o (first :: rest) inp fs =
  match reconcile rt first (headers_union dfof (first :: rest) ∅)
          (headers_dict dfof (first :: rest) [])
          (mkState [LogFound (length (first :: rest))] inp fs) with
  | (Exc e, s1) => (Exc e, add_log s1 [LogOccurred e])
  | (Ok A, s1) =>
      let T := mkFrame (set_iter rt A) (output_rows (set_iter rt A) (map dfof (first :: rest))) in
      let s2 := add_log s1 (map (fun f => LogRead (fname f)) (first :: rest)) in
      match name_result rt o (map (fun f => add_missing rt A (dfof f)) (first :: rest)) with
      | Exc e => (Exc e, add_log s2 [LogOccurred e])
      | Ok p => (Ok tt, mkState (st_log s2 ++ [LogConsolidated (length (first :: rest)) p;
                                               LogTotalRows (length (rows T));
                                               LogTotalColumns (length (columns T))])
                                (st_stdin s2) (<[p := to_csv T]> (st_fs s2)))
      end
  end.
Proof.
  intros Hr. unfold run. rewrite (consolidate_csvs_readable rt o first rest dfof) by done.
  simpl (([] : list event) ++ _).
  destruct (reconcile _ _ _ _ _) as [[A|e] s1]; [|done]. cbn zeta.
  assert (HT : reindex (set_iter rt A) (concat_frames (map (fun f => add_missing rt A (dfof f)) (first :: rest)))
             = mkFrame (set_iter rt A) (output_rows (set_iter rt A) (map dfof (first :: rest)))).
  { rewrite <- (map_map dfof (add_missing rt A)). apply final_table_eq. by apply (readable_frames rt). }
  by rewrite HT.
Qed.

Lemma read_frame_NoDup rt f df : read_frame rt f = inr df -> NoDup (columns df).
Proof.
  unfold read_frame. destruct (find_header 0 (flines f)); [|discriminate].
  apply read_csv_NoDup.
Qed.

(** A run in which no file has a column outside the first file's column
    set: the schema check passes silently and every file is merged. *)
Lemma subset_schema_run rt o first rest dfof inp fs :
  (forall f, f ∈ first :: rest -> read_frame rt f = inr (dfof f)) ->
  (forall f, f ∈ first :: rest -> colset (dfof f) ⊆ colset (dfof first)) ->
  run rt o (first :: rest) inp fs =
  let base := colset (dfof first) in
  let T := mkFrame (set_iter rt base) (output_rows (set_iter rt base) (map dfof (first :: rest))) in
  let lg0 := LogFound (length (first :: rest)) :: map (fun f => LogRead (fname f)) (first :: rest) in
  match name_result rt o (map (fun f => add_missing rt base (dfof f)) (first :: rest)) with
  | Exc e => (Exc e, mkState (lg0 ++ [LogOccurred e]) inp fs)
  | Ok p => (Ok tt, mkState (lg0 ++ [LogConsolidated (length (first :: rest)) p;
                                     LogTotalRows (length (rows T));
                                     LogTotalColumns (length (columns T))])
                            inp (<[p := to_csv T]> fs))
  end.
Proof.
  intros Hr Hsub. rewrite (run_readable rt o first rest dfof) by done.
  assert (HU : headers_union dfof (first :: rest) ∅ = colset (dfof first)).
  { apply leibniz_equiv. apply (anti_symm (⊆)).
    - apply headers_union_subset; [done | apply empty_subseteq].
    - apply headers_union_elem. apply elem_of_cons. by left. }
  rewrite HU, (reconcile_same rt first _ _ (colset (dfof first))).
  - cbn zeta. by destruct (name_result _ _ _).
  - apply base_headers_dict.
  - apply difference_diag_L.
Qed.

(** Every file is read, and all files have the first file's column set. *)
Lemma same_schema_subset (dfof : file -> frame) first rest :
  (forall f, f ∈ first :: rest -> colset (dfof f) = colset (dfof first)) ->
  forall f, f ∈ first :: rest -> colset (dfof f) ⊆ colset (dfof first).
Proof. intros H f Hf. by rewrite (H f Hf). Qed.

Lemma set_iter_colset_perm rt cols :
  NoDup cols -> set_iter rt (list_to_set cols) ≡ₚ cols.
Proof.
  intros Hnd. apply NoDup_Permutation; [apply set_iter_NoDup | done |].
  intros x. rewrite set_iter_elem. apply elem_of_list_to_set.
Qed.

Lemma no_schema_events n files extra :
  Forall (fun ev => schema_event ev = false)
    ((LogFound n :: map (fun f => LogRead (fname f)) files) ++ extra) <->
  Forall (fun ev => schema_event ev = false) extra.
Proof.
  rewrite Forall_app, Forall_cons. split; [tauto|]. intros H. split; [|done]. split; [done|].
  apply Forall_forall. intros ev Hev. apply list_elem_of_fmap in Hev as (f & -> & _). done.
Qed.

(** C9: when every file's column set is contained in the first file's, the
    run asks nothing and warns of nothing: standard input is left as it
    was, and the log holds none of the schema check's events.  Either it
    writes nothing, or it writes the table on the first file's columns in
    which each row of each file, in order, gives under each column its own
    cell, or a missing value when its file lacks that column. *)
Theorem subset_schema_no_prompt rt o first rest dfof inp fs :
  (forall f, f ∈ first :: rest -> read_frame rt f = inr (dfof f)) ->
  (forall f, f ∈ first :: rest -> colset (dfof f) ⊆ colset (dfof first)) ->
  let base := set_iter rt (colset (dfof first)) in
  let T := mkFrame base (output_rows base (map dfof (first :: rest))) in
  let '(r, s) := run rt o (first :: rest) inp fs in
  st_stdin s = inp /\
  Forall (fun ev => schema_event ev = false) (st_log s) /\
  (st_fs s = fs \/ exists p, r = Ok tt /\ st_fs s = <[p := to_csv T]> fs).
Proof.
  intros Hr Hsub. rewrite (subset_schema_run rt o first rest dfof inp fs Hr Hsub). cbn zeta.
  destruct (name_result _ _ _) as [p|e]; cbn beta iota delta [st_stdin st_log st_fs];
    rewrite no_schema_events; (split; [done|]); (split; [by repeat constructor|]).
  - right. by exists p.
  - by left.
Qed.

Lemma subset_schema_no_prompt_witness :
  (forall f, f ∈ [file_fee; file_tx] -> read_frame rt_a f = inr (frame_of rt_a f)) /\
  (forall f, f ∈ [file_fee; file_tx] -> colset (frame_of rt_a f) ⊆ colset (frame_of rt_a file_fee)) /\
  let base := set_iter rt_a (colset (frame_of rt_a file_fee)) in
  let T := mkFrame base (output_rows base (map (frame_of rt_a) [file_fee; file_tx])) in
  let '(r, s) := run rt_a None [file_fee; file_tx] [] ∅ in
  st_stdin s = [] /\
  Forall (fun ev => schema_event ev = false) (st_log s) /\
  (st_fs s = ∅ \/ exists p, r = Ok tt /\ st_fs s = <[p := to_csv T]> ∅).
Proof.
  assert (Hr : forall f, f ∈ [file_fee; file_tx] -> read_frame rt_a f = inr (frame_of rt_a f)).
  { intros f Hf. apply elem_of_cons in Hf as [->|Hf]; [reflexivity|].
    apply elem_of_cons in Hf as [->|Hf]; [reflexivity|]. by apply elem_of_nil in Hf. }
  assert (Hs : forall f, f ∈ [file_fee; file_tx] ->
                 colset (frame_of rt_a f) ⊆ colset (frame_of rt_a file_fee)).
  { intros f Hf. apply elem_of_cons in Hf as [->|Hf]; [reflexivity|].
    apply elem_of_cons in Hf as [->|Hf]; [apply (bool_decide_unpack (colset (frame_of rt_a file_tx) ⊆ colset (frame_of rt_a file_fee))); vm_compute; exact I|]. by apply elem_of_nil in Hf. }
  split; [exact Hr|]. split; [exact Hs|].
  exact (subset_schema_no_prompt rt_a None file_fee [file_tx] (frame_of rt_a) [] ∅ Hr Hs).
Defined.

(** C1 (as amended): when all files have the same column set, the run asks
    nothing and warns of nothing (standard input is left as it was), and
    the header of the written file lists the first file's columns in the
    iteration order of the process's set of column names: a permutation
    of the first file's header, which need not be that header's order. *)
Theorem same_schema_set_order rt o first rest dfof inp fs :
  (forall f, f ∈ first :: rest -> read_frame rt f = inr (dfof f)) ->
  (forall f, f ∈ first :: rest -> colset (dfof f) = colset (dfof first)) ->
  let cols := set_iter rt (colset (dfof first)) in
  let '(r, s) := run rt o (first :: rest) inp fs in
  st_stdin s = inp /\
  Forall (fun ev => schema_event ev = false) (st_log s) /\
  cols ≡ₚ columns (dfof first) /\
  (st_fs s = fs \/ exists p, r = Ok tt /\
     st_fs s = <[p := to_csv (mkFrame cols (output_rows cols (map dfof (first :: rest))))]> fs).
Proof.
  intros Hr Hsame.
  rewrite (subset_schema_run rt o first rest dfof inp fs Hr (same_schema_subset dfof first rest Hsame)).
  assert (Hp : set_iter rt (colset (dfof first)) ≡ₚ columns (dfof first)).
  { apply set_iter_colset_perm. apply (read_frame_NoDup rt first). apply Hr. by left. }
  cbn zeta.
  destruct (name_result _ _ _) as [p|e]; cbn beta iota delta [st_stdin st_log st_fs];
    rewrite no_schema_events; (split; [done|]); (split; [by repeat constructor|]);
    (split; [exact Hp|]).
  - right. by exists p.
  - by left.
Qed.

Lemma same_schema_set_order_witness :
  (forall f, f ∈ [file_tx; file_tx2] -> read_frame rt_a f = inr (frame_of rt_a f)) /\
  (forall f, f ∈ [file_tx; file_tx2] -> colset (frame_of rt_a f) = colset (frame_of rt_a file_tx)) /\
  let cols := set_iter rt_a (colset (frame_of rt_a file_tx)) in
  let '(r, s) := run rt_a (Some "out") [file_tx; file_tx2] [] ∅ in
  st_stdin s = [] /\
  Forall (fun ev => schema_event ev = false) (st_log s) /\
  cols ≡ₚ columns (frame_of rt_a file_tx) /\
  (st_fs s = ∅ \/ exists p, r = Ok tt /\
     st_fs s = <[p := to_csv (mkFrame cols (output_rows cols (map (frame_of rt_a) [file_tx; file_tx2])))]> ∅).
Proof.
  assert (Hr : forall f, f ∈ [file_tx; file_tx2] -> read_frame rt_a f = inr (frame_of rt_a f)).
  { intros f Hf. apply elem_of_cons in Hf as [->|Hf]; [reflexivity|].
    apply elem_of_cons in Hf as [->|Hf]; [reflexivity|]. by apply elem_of_nil in Hf. }
  assert (Hs : forall f, f ∈ [file_tx; file_tx2] ->
                 colset (frame_of rt_a f) = colset (frame_of rt_a file_tx)).
  { intros f Hf. apply elem_of_cons in Hf as [->|Hf]; [reflexivity|].
    apply elem_of_cons in Hf as [->|Hf]; [reflexivity|]. by apply elem_of_nil in Hf. }
  split; [exact Hr|]. split; [exact Hs|].
  exact (same_schema_set_order rt_a (Some "out") file_tx [file_tx2] (frame_of rt_a) [] ∅ Hr Hs).
Defined.

(** C1, as stated, fails: [tx.csv] and [tx2.csv] have the same columns,
    with header [ID,Timestamp,Transaction Type,Amount] in the first file;
    with set iteration in [elements] order the output header is
    [ID,Amount,Timestamp,Transaction Type]. *)
Lemma same_schema_order_differs :
  colset (frame_of rt_a file_tx) = colset (frame_of rt_a file_tx2) /\
  columns (frame_of rt_a file_tx) = ["ID"; "Timestamp"; "Transaction Type"; "Amount"] /\
  st_fs (run rt_a (Some "out") [file_tx; file_tx2] [] ∅).2 !! "out.csv" =
  Some ("ID,Amount,Timestamp,Transaction Type" +++ NL +++
        "1,10,2024-01-05,buy" +++ NL +++ "2,7,2024-01-10,sell" +++ NL +++
        "3,5,2024-02-01,buy" +++ NL).
Proof. split; [reflexivity|]. split; vm_compute; reflexivity. Qed.

Lemma warning_of_file rt dfof files base f :
  f ∈ files -> colset (dfof f) ∖ base ≠ ∅ ->
  LogAdditional (fname f) (set_iter rt (colset (dfof f) ∖ base)) ∈ extra_warnings rt (headers_dict dfof files []) base.
Proof.
  intros Hf Hne. unfold extra_warnings. apply list_elem_of_omap.
  exists (f, colset (dfof f)). split.
  - apply dict_get_elem. rewrite dict_get_headers_dict. by destruct (decide (f ∈ files)).
  - by destruct (decide (colset (dfof f) ∖ base = ∅)).
Qed.

Lemma new_headers_nonempty dfof first rest :
  (exists g, g ∈ first :: rest /\ ~ colset (dfof g) ⊆ colset (dfof first)) ->
  headers_union dfof (first :: rest) ∅ ∖ colset (dfof first) ≠ ∅.
Proof.
  intros (g & Hg & Hn) He. apply Hn.
  pose proof (headers_union_elem dfof (first :: rest) ∅ g Hg). set_solver.
Qed.

(** C6 (as amended): when some file has a column outside the first file's
    column set, the run warns (one [Additional headers] line per file with
    such columns) and reads one line of standard input.  With no line left
    it raises [EOFError] and writes nothing.  Otherwise the line is the
    answer: exactly [y] in either case (compared after lowercasing, with
    nothing stripped) keeps the union of all column sets, and any other
    line, [yes] included, keeps the first file's columns only. *)
Theorem extra_columns_prompt rt o first rest dfof inp fs :
  (forall f, f ∈ first :: rest -> read_frame rt f = inr (dfof f)) ->
  (exists g, g ∈ first :: rest /\ ~ colset (dfof g) ⊆ colset (dfof first)) ->
  let files := first :: rest in
  let base := colset (dfof first) in
  let U := headers_union dfof files ∅ in
  let warnings := [LogFound (length files); LogDifferentHeaders] ++
                  extra_warnings rt (headers_dict dfof files []) base in
  let '(r, s) := run rt o files inp fs in
  (forall f, f ∈ files -> colset (dfof f) ∖ base ≠ ∅ ->
     LogAdditional (fname f) (set_iter rt (colset (dfof f) ∖ base)) ∈ warnings) /\
  match inp with
  | [] => r = Exc "EOFError" /\ st_log s = warnings ++ [LogOccurred "EOFError"] /\
          st_stdin s = [] /\ st_fs s = fs
  | l :: inp' =>
      let A := if String.eqb (py_lower l) "y" then U else base in
      st_stdin s = inp' /\
      (exists tail, st_log s = warnings ++ [LogPrompt QUESTION l] ++
          (if String.eqb (py_lower l) "y" then [] else [LogCommonOnly]) ++ tail) /\
      (st_fs s = fs \/ exists p, r = Ok tt /\
         st_fs s = <[p := to_csv (mkFrame (set_iter rt A)
                                    (output_rows (set_iter rt A) (map dfof files)))]> fs)
  end.
Proof.
  intros Hr Hex. cbn zeta. rewrite (run_readable rt o first rest dfof) by done. cbn zeta.
  pose proof (new_headers_nonempty dfof first rest Hex) as Hne.
  pose proof (base_headers_dict dfof first rest) as Hb.
  assert (Hw : forall f, f ∈ first :: rest -> colset (dfof f) ∖ colset (dfof first) ≠ ∅ ->
     LogAdditional (fname f) (set_iter rt (colset (dfof f) ∖ colset (dfof first))) ∈
     [LogFound (length (first :: rest)); LogDifferentHeaders] ++
     extra_warnings rt (headers_dict dfof (first :: rest) []) (colset (dfof first))).
  { intros f Hf Hf'. apply elem_of_app. right. by apply warning_of_file. }
  destruct inp as [|l inp'].
  - rewrite (reconcile_eof _ _ _ _ _ _ Hb Hne) by done.
    cbn beta iota delta [add_log st_stdin st_log st_fs].
    split; [exact Hw|]. split; [done|]. split; [|done]. by rewrite <- app_assoc.
  - rewrite (reconcile_prompt _ _ _ _ _ _ l inp' Hb Hne) by done.
    cbn beta iota delta [st_stdin st_log st_fs].
    destruct (String.eqb (py_lower l) "y");
      destruct (name_result _ _ _) as [p|e]; cbn beta iota delta [add_log st_stdin st_log st_fs];
      (split; [exact Hw|]); (split; [done|]); (split; [eexists; rewrite <- !app_assoc; reflexivity|]);
      solve [left; done | right; by exists p].
Qed.

Lemma extra_columns_prompt_witness :
  (forall f, f ∈ [file_tx; file_fee] -> read_frame rt_a f = inr (frame_of rt_a f)) /\
  (exists g, g ∈ [file_tx; file_fee] /\ ~ colset (frame_of rt_a g) ⊆ colset (frame_of rt_a file_tx)) /\
  let files := [file_tx; file_fee] in
  let base := colset (frame_of rt_a file_tx) in
  let U := headers_union (frame_of rt_a) files ∅ in
  let warnings := [LogFound (length files); LogDifferentHeaders] ++
                  extra_warnings rt_a (headers_dict (frame_of rt_a) files []) base in
  let '(r, s) := run rt_a None files ["Y"] ∅ in
  (forall f, f ∈ files -> colset (frame_of rt_a f) ∖ base ≠ ∅ ->
     LogAdditional (fname f) (set_iter rt_a (colset (frame_of rt_a f) ∖ base)) ∈ warnings) /\
  let A := if String.eqb (py_lower "Y") "y" then U else base in
  st_stdin s = [] /\
  (exists tail, st_log s = warnings ++ [LogPrompt QUESTION "Y"] ++
      (if String.eqb (py_lower "Y") "y" then [] else [LogCommonOnly]) ++ tail) /\
  (st_fs s = ∅ \/ exists p, r = Ok tt /\
     st_fs s = <[p := to_csv (mkFrame (set_iter rt_a A)
                                (output_rows (set_iter rt_a A) (map (frame_of rt_a) files)))]> ∅).
Proof.
  assert (Hr : forall f, f ∈ [file_tx; file_fee] -> read_frame rt_a f = inr (frame_of rt_a f)).
  { intros f Hf. apply elem_of_cons in Hf as [->|Hf]; [reflexivity|].
    apply elem_of_cons in Hf as [->|Hf]; [reflexivity|]. by apply elem_of_nil in Hf. }
  assert (Hx : exists g, g ∈ [file_tx; file_fee] /\
                 ~ colset (frame_of rt_a g) ⊆ colset (frame_of rt_a file_tx)).
  { exists file_fee. split; [set_solver|].
    apply (bool_decide_unpack (~ colset (frame_of rt_a file_fee) ⊆ colset (frame_of rt_a file_tx))).
    vm_compute. exact I. }
  split; [exact Hr|]. split; [exact Hx|].
  exact (extra_columns_prompt rt_a None file_tx [file_fee] (frame_of rt_a) ["Y"] ∅ Hr Hx).
Defined.

(** C6, as stated, fails: the answer [yes] is affirmative, yet the run
    keeps the first file's columns only and the [Fee] column of
    [fee.csv] is not written. *)
Lemma yes_answer_declines :
  columns (frame_of rt_a file_fee) = ["ID"; "Timestamp"; "Transaction Type"; "Amount"; "Fee"] /\
  LogCommonOnly ∈ st_log (run rt_a (Some "out") [file_tx; file_fee] ["yes"] ∅).2 /\
  st_fs (run rt_a (Some "out") [file_tx; file_fee] ["yes"] ∅).2 !! "out.csv" =
  Some ("ID,Amount,Timestamp,Transaction Type" +++ NL +++
        "1,10,2024-01-05,buy" +++ NL +++ "2,7,2024-01-10,sell" +++ NL +++
        "4,8,2024-03-01,buy" +++ NL).
Proof.
  split; [vm_compute; reflexivity|]. split; [|vm_compute; reflexivity].
  apply list_elem_of_In. vm_compute. repeat (first [left; reflexivity | right]).
Qed.

Lemma col_index_NoDup c cols j :
  NoDup cols -> cols !! j = Some c -> col_index c cols = Some j.
Proof.
  revert j. induction cols as [|c' cols IH]; intros j Hnd Hj; [discriminate|].
  apply NoDup_cons in Hnd as [Hni Hnd].
  destruct j as [|j]; simpl in Hj |- *.
  - injection Hj as ->. by rewrite String.eqb_refl.
  - destruct (String.eqb_spec c c') as [->|]; [by apply list_elem_of_lookup_2 in Hj|].
    by rewrite (IH j).
Qed.

Lemma cell_of_lookup cols (r : list cell) j c :
  NoDup cols -> cols !! j = Some c -> cell_of cols r c = default None (r !! j).
Proof. intros Hnd Hj. unfold cell_of. by rewrite (col_index_NoDup c cols j). Qed.

(** C8 (as amended): a run on a directory in which every file is read
    either writes nothing or writes the table on the final columns [A]
    (the union of all column sets, or the first file's columns when the
    extra columns were declined), in which each row of each file, in
    order, holds under each column of [A] the row's own cell for that
    column (the cell at the column's position in the file's header), and
    a missing value for a column its file lacks.  Cells under columns
    outside [A] are not written. *)
Theorem merged_cells_preserved rt o first rest dfof inp fs :
  (forall f, f ∈ first :: rest -> read_frame rt f = inr (dfof f)) ->
  let files := first :: rest in
  let base := colset (dfof first) in
  let U := headers_union dfof files ∅ in
  (forall f j c (r : list cell), f ∈ files -> columns (dfof f) !! j = Some c ->
     cell_of (columns (dfof f)) r c = default None (r !! j)) /\
  let '(r, s) := run rt o files inp fs in
  st_fs s = fs \/
  exists p A, r = Ok tt /\ (A = U \/ A = base) /\ base ⊆ A /\ A ⊆ U /\
    st_fs s = <[p := to_csv (mkFrame (set_iter rt A)
                               (output_rows (set_iter rt A) (map dfof files)))]> fs.
Proof.
  intros Hr. cbn zeta. split.
  { intros f j c r Hf Hj. apply cell_of_lookup; [|done].
    apply (read_frame_NoDup rt f). by apply Hr. }
  rewrite (run_readable rt o first rest dfof) by done.
  set (s0 := mkState [LogFound (length (first :: rest))] inp fs).
  pose proof (fs_pure_fs _ s0 (reconcile_fs_pure rt first (headers_union dfof (first :: rest) ∅)
                                (headers_dict dfof (first :: rest) []))) as Hfs.
  assert (Hbu : colset (dfof first) ⊆ headers_union dfof (first :: rest) ∅).
  { apply headers_union_elem. apply elem_of_cons. by left. }
  destruct (reconcile _ _ _ _ s0) as [[A|e] s1] eqn:Hrec; simpl in Hfs.
  - cbn zeta. destruct (reconcile_result rt first _ _ (colset (dfof first)) s0 A s1
                          (base_headers_dict dfof first rest) Hrec) as [HA|HA].
    + destruct (name_result _ _ _) as [p|e]; cbn beta iota delta [add_log st_fs];
        [right; exists p, A; subst A; rewrite Hfs; split_and!; auto | left; done].
    + destruct (name_result _ _ _) as [p|e]; cbn beta iota delta [add_log st_fs];
        [right; exists p, A; subst A; rewrite Hfs; split_and!; auto | left; done].
  - left. done.
Qed.

Lemma merged_cells_preserved_witness :
  (forall f, f ∈ [file_tx; file_fee] -> read_frame rt_a f = inr (frame_of rt_a f)) /\
  let files := [file_tx; file_fee] in
  let base := colset (frame_of rt_a file_tx) in
  let U := headers_union (frame_of rt_a) files ∅ in
  (forall f j c (r : list cell), f ∈ files -> columns (frame_of rt_a f) !! j = Some c ->
     cell_of (columns (frame_of rt_a f)) r c = default None (r !! j)) /\
  let '(r, s) := run rt_a (Some "out") files ["y"] ∅ in
  st_fs s = ∅ \/
  exists p A, r = Ok tt /\ (A = U \/ A = base) /\ base ⊆ A /\ A ⊆ U /\
    st_fs s = <[p := to_csv (mkFrame (set_iter rt_a A)
                               (output_rows (set_iter rt_a A) (map (frame_of rt_a) files)))]> ∅.
Proof.
  assert (Hr : forall f, f ∈ [file_tx; file_fee] -> read_frame rt_a f = inr (frame_of rt_a f)).
  { intros f Hf. apply elem_of_cons in Hf as [->|Hf]; [reflexivity|].
    apply elem_of_cons in Hf as [->|Hf]; [reflexivity|]. by apply elem_of_nil in Hf. }
  split; [exact Hr|].
  exact (merged_cells_preserved rt_a (Some "out") file_tx [file_fee] (frame_of rt_a) ["y"] ∅ Hr).
Defined.

(** C8, as stated, fails: [fee.csv] is merged and holds [0.5] under its
    [Fee] column, but when the extra column is declined the written file
    has no [Fee] column and no cell [0.5]. *)
Lemma declined_cells_dropped :
  columns (frame_of rt_a file_fee) = ["ID"; "Timestamp"; "Transaction Type"; "Amount"; "Fee"] /\
  rows (frame_of rt_a file_fee) = [[Some "4"; Some "2024-03-01"; Some "buy"; Some "8"; Some "0.5"]] /\
  LogRead "fee.csv" ∈ st_log (run rt_a (Some "out") [file_tx; file_fee] ["n"] ∅).2 /\
  st_fs (run rt_a (Some "out") [file_tx; file_fee] ["n"] ∅).2 !! "out.csv" =
  Some ("ID,Amount,Timestamp,Transaction Type" +++ NL +++
        "1,10,2024-01-05,buy" +++ NL +++ "2,7,2024-01-10,sell" +++ NL +++
        "4,8,2024-03-01,buy" +++ NL) /\
  py_contains "0.5" ("ID,Amount,Timestamp,Transaction Type" +++ NL +++
        "1,10,2024-01-05,buy" +++ NL +++ "2,7,2024-01-10,sell" +++ NL +++
        "4,8,2024-03-01,buy" +++ NL) = false.
Proof.
  split; [vm_compute; reflexivity|]. split; [vm_compute; reflexivity|].
  split; [apply list_elem_of_In; vm_compute; repeat (first [left; reflexivity | right])|].
  split; vm_compute; reflexivity.
Qed.

(** ** Two runs on the same directory *)

Lemma name_result_some rt n dfs :
  name_result rt (Some n) dfs = Ok (if py_endswith n ".csv" then n else n +++ ".csv").
Proof. reflexivity. Qed.

Lemma read_frame_same_reader rt1 rt2 f :
  (forall ls, read_csv rt1 ls = read_csv rt2 ls) -> read_frame rt1 f = read_frame rt2 f.
Proof. intros H. unfold read_frame. destruct (find_header 0 (flines f)); [apply H|done]. Qed.

Lemma cell_of_map cols (g : string -> cell) c :
  NoDup cols -> cell_of cols (map g cols) c = if decide (c ∈ cols) then g c else None.
Proof.
  intros Hnd. destruct (decide (c ∈ cols)) as [Hc|Hc]; [|by apply cell_of_missing].
  apply list_elem_of_lookup_1 in Hc as [j Hj].
  rewrite (cell_of_lookup cols _ j c Hnd Hj), list_lookup_fmap, Hj. done.
Qed.

Lemma output_rows_agree c1 c2 dfs :
  NoDup c1 -> NoDup c2 -> (forall x, x ∈ c1 <-> x ∈ c2) ->
  Forall2 (fun r1 r2 => forall c, cell_of c1 r1 c = cell_of c2 r2 c)
    (output_rows c1 dfs) (output_rows c2 dfs).
Proof.
  intros H1 H2 Hx. unfold output_rows. induction dfs as [|df dfs IH]; simpl; [constructor|].
  apply Forall2_app; [|done]. induction (rows df) as [|r rs IHr]; simpl; constructor; [|done].
  intros c. rewrite !cell_of_map by done.
  destruct (decide (c ∈ c1)), (decide (c ∈ c2)); naive_solver.
Qed.

Lemma set_iter_same_elems rt1 rt2 (A : gset string) x :
  x ∈ set_iter rt1 A <-> x ∈ set_iter rt2 A.
Proof. by rewrite !set_iter_elem. Qed.

Lemma set_iter_perm rt1 rt2 (A : gset string) : set_iter rt1 A ≡ₚ set_iter rt2 A.
Proof. apply NoDup_Permutation; [apply set_iter_NoDup | apply set_iter_NoDup | apply set_iter_same_elems]. Qed.

Lemma same_but_listing_refl l : Forall2 same_but_listing l l.
Proof. induction l as [|ev l IH]; constructor; [|done]. destruct ev; done. Qed.

Lemma extra_warnings_runtimes rt1 rt2 d base :
  Forall2 same_but_listing (extra_warnings rt1 d base) (extra_warnings rt2 d base).
Proof.
  induction d as [|[f h] d IH]; [constructor|]. unfold extra_warnings at 1 2. simpl.
  destruct (decide (h ∖ base = ∅)); [exact IH|]. constructor; [|exact IH].
  split; [done | apply set_iter_perm].
Qed.

Lemma extra_warnings_same_iter rt1 rt2 d base :
  (forall A, set_iter rt1 A = set_iter rt2 A) ->
  extra_warnings rt1 d base = extra_warnings rt2 d base.
Proof.
  intros Hs. induction d as [|[f h] d IH]; [done|]. unfold extra_warnings at 1 2. simpl.
  destruct (decide (h ∖ base = ∅)); [exact IH|]. rewrite Hs. f_equal. exact IH.
Qed.

(** The schema check in two processes: the same outcome, the same input
    left, the same files, and the same log up to the listing order of
    each warning's extra columns. *)
Lemma reconcile_runtimes rt1 rt2 first all d s :
  (reconcile rt1 first all d s).1 = (reconcile rt2 first all d s).1 /\
  st_stdin (reconcile rt1 first all d s).2 = st_stdin (reconcile rt2 first all d s).2 /\
  st_fs (reconcile rt1 first all d s).2 = st_fs (reconcile rt2 first all d s).2 /\
  Forall2 same_but_listing (st_log (reconcile rt1 first all d s).2)
                           (st_log (reconcile rt2 first all d s).2).
Proof.
  destruct (dict_get first d) as [base|] eqn:Hb.
  - destruct (decide (all ∖ base = ∅)) as [He|He].
    + rewrite !(reconcile_same _ first all d base s Hb He). split_and!; try done.
      apply same_but_listing_refl.
    + destruct (st_stdin s) as [|l rest] eqn:Hin.
      * rewrite !(reconcile_eof _ first all d base s Hb He Hin). simpl. split_and!; try done.
        apply Forall2_app; [apply same_but_listing_refl|].
        constructor; [done | apply extra_warnings_runtimes].
      * rewrite !(reconcile_prompt _ first all d base s l rest Hb He Hin). simpl.
        split_and!; try done.
        apply Forall2_app; [apply same_but_listing_refl|].
        constructor; [done|]. apply Forall2_app; [apply extra_warnings_runtimes|].
        apply same_but_listing_refl.
  - unfold reconcile. rewrite Hb. split_and!; try done. apply same_but_listing_refl.
Qed.

Lemma reconcile_same_iter rt1 rt2 first all d s :
  (forall A, set_iter rt1 A = set_iter rt2 A) ->
  reconcile rt1 first all d s = reconcile rt2 first all d s.
Proof.
  intros Hs. destruct (dict_get first d) as [base|] eqn:Hb.
  - destruct (decide (all ∖ base = ∅)) as [He|He].
    + by rewrite !(reconcile_same _ first all d base s Hb He).
    + destruct (st_stdin s) as [|l rest] eqn:Hin.
      * rewrite !(reconcile_eof _ first all d base s Hb He Hin).
        by rewrite (extra_warnings_same_iter rt1 rt2 d base Hs).
      * rewrite !(reconcile_prompt _ first all d base s l rest Hb He Hin).
        by rewrite (extra_warnings_same_iter rt1 rt2 d base Hs).
  - unfold reconcile. by rewrite Hb.
Qed.

(** C4 (as amended): two processes that read files alike, run on the same
    directory with the same standard input and the same explicit output
    name, end with the same outcome, leave the same input unread, and log
    the same lines but for the order in which each [Additional headers]
    warning lists a file's extra columns; either both write nothing or
    both write the same path.  The two written tables have the same rows
    in the same order and the same cell under each column name, but their
    columns come in each process's set iteration order, so the two files
    need not be byte-identical; when the two processes iterate sets alike,
    the two runs end in the same state. *)
Theorem explicit_name_runs_agree rt1 rt2 n first rest dfof inp fs :
  (forall ls, read_csv rt1 ls = read_csv rt2 ls) ->
  (forall f, f ∈ first :: rest -> read_frame rt1 f = inr (dfof f)) ->
  let files := first :: rest in
  let T := fun rt (A : gset string) =>
             mkFrame (set_iter rt A) (output_rows (set_iter rt A) (map dfof files)) in
  let '(r1, s1) := run rt1 (Some n) files inp fs in
  let '(r2, s2) := run rt2 (Some n) files inp fs in
  r1 = r2 /\ Forall2 same_but_listing (st_log s1) (st_log s2) /\ st_stdin s1 = st_stdin s2 /\
  ((st_fs s1 = fs /\ st_fs s2 = fs) \/
   exists p A, st_fs s1 = <[p := to_csv (T rt1 A)]> fs /\ st_fs s2 = <[p := to_csv (T rt2 A)]> fs /\
     columns (T rt1 A) ≡ₚ columns (T rt2 A) /\
     Forall2 (fun x y => forall c, cell_of (columns (T rt1 A)) x c = cell_of (columns (T rt2 A)) y c)
       (rows (T rt1 A)) (rows (T rt2 A))) /\
  ((forall s, set_iter rt1 s = set_iter rt2 s) -> s1 = s2).
Proof.
  intros Hread Hr1.
  assert (Hr2 : forall f, f ∈ first :: rest -> read_frame rt2 f = inr (dfof f)).
  { intros f Hf. rewrite <- (read_frame_same_reader rt1 rt2 f Hread). by apply Hr1. }
  cbn zeta.
  rewrite (run_readable rt1 _ first rest dfof) by done.
  rewrite (run_readable rt2 _ first rest dfof) by done.
  set (s := mkState [LogFound (length (first :: rest))] inp fs).
  set (U := headers_union dfof (first :: rest) ∅).
  set (D := headers_dict dfof (first :: rest) []).
  pose proof (fs_pure_fs _ s (reconcile_fs_pure rt1 first U D)) as Hfs.
  pose proof (reconcile_runtimes rt1 rt2 first U D s) as (Hres & Hin & Hfs12 & Hlog).
  pose proof (reconcile_same_iter rt1 rt2 first U D s) as Hsi.
  destruct (reconcile rt1 first U D s) as [[A|e] s01];
    destruct (reconcile rt2 first U D s) as [[A'|e'] s02];
    simpl in Hres, Hin, Hfs12, Hlog, Hfs, Hsi; try discriminate.
  - injection Hres as <-. rewrite !name_result_some.
    cbn beta iota zeta delta [add_log st_stdin st_log st_fs rows columns]. rewrite Hfs.
    pose proof (output_rows_agree (set_iter rt1 A) (set_iter rt2 A) (map dfof (first :: rest))
                  (set_iter_NoDup rt1 A) (set_iter_NoDup rt2 A) (set_iter_same_elems rt1 rt2 A)) as Hag.
    rewrite (Forall2_length _ _ _ Hag), (Permutation_length (set_iter_perm rt1 rt2 A)).
    split_and!; [done | | done | | ].
    + apply Forall2_app; [apply Forall2_app; [done | apply same_but_listing_refl]|].
      apply same_but_listing_refl.
    + right. eexists _, A. rewrite <- Hfs12, Hfs.
      split_and!; [reflexivity | reflexivity | apply set_iter_perm | exact Hag].
    + intros Hs. specialize (Hsi Hs). injection Hsi as <-. rewrite ?Hfs, Hs. reflexivity.
  - injection Hres as <-. cbn beta iota delta [add_log st_stdin st_log st_fs].
    split_and!; [done | | done | | ].
    + apply Forall2_app; [done | apply same_but_listing_refl].
    + left. split; [done|]. by rewrite <- Hfs12.
    + intros Hs. specialize (Hsi Hs). by injection Hsi as <-.
Qed.

Lemma explicit_name_runs_agree_witness :
  (forall ls, read_csv rt_a ls = read_csv rt_b ls) /\
  (forall f, f ∈ [file_tx; file_fee] -> read_frame rt_a f = inr (frame_of rt_a f)) /\
  let files := [file_tx; file_fee] in
  let T := fun rt (A : gset string) =>
             mkFrame (set_iter rt A) (output_rows (set_iter rt A) (map (frame_of rt_a) files)) in
  let '(r1, s1) := run rt_a (Some "out") files ["y"] ∅ in
  let '(r2, s2) := run rt_b (Some "out") files ["y"] ∅ in
  r1 = r2 /\ Forall2 same_but_listing (st_log s1) (st_log s2) /\ st_stdin s1 = st_stdin s2 /\
  ((st_fs s1 = ∅ /\ st_fs s2 = ∅) \/
   exists p A, st_fs s1 = <[p := to_csv (T rt_a A)]> ∅ /\ st_fs s2 = <[p := to_csv (T rt_b A)]> ∅ /\
     columns (T rt_a A) ≡ₚ columns (T rt_b A) /\
     Forall2 (fun x y => forall c, cell_of (columns (T rt_a A)) x c = cell_of (columns (T rt_b A)) y c)
       (rows (T rt_a A)) (rows (T rt_b A))) /\
  ((forall s, set_iter rt_a s = set_iter rt_b s) -> s1 = s2).
Proof.
  assert (Hread : forall ls, read_csv rt_a ls = read_csv rt_b ls) by reflexivity.
  assert (Hr : forall f, f ∈ [file_tx; file_fee] -> read_frame rt_a f = inr (frame_of rt_a f)).
  { intros f Hf. apply elem_of_cons in Hf as [->|Hf]; [reflexivity|].
    apply elem_of_cons in Hf as [->|Hf]; [reflexivity|]. by apply elem_of_nil in Hf. }
  split; [exact Hread|]. split; [exact Hr|].
  exact (explicit_name_runs_agree rt_a rt_b "out" file_tx [file_fee] (frame_of rt_a) ["y"] ∅ Hread Hr).
Defined.

(** C4, as stated, fails: two processes that differ only in the order in
    which they iterate sets of strings write different bytes for the same
    directory and the same output name. *)
Lemma explicit_name_outputs_differ :
  st_fs (run rt_a (Some "out") [file_tx; file_tx2] [] ∅).2 !! "out.csv" =
  Some ("ID,Amount,Timestamp,Transaction Type" +++ NL +++
        "1,10,2024-01-05,buy" +++ NL +++ "2,7,2024-01-10,sell" +++ NL +++
        "3,5,2024-02-01,buy" +++ NL) /\
  st_fs (run rt_b (Some "out") [file_tx; file_tx2] [] ∅).2 !! "out.csv" =
  Some ("Transaction Type,Timestamp,Amount,ID" +++ NL +++
        "buy,2024-01-05,10,1" +++ NL +++ "sell,2024-01-10,7,2" +++ NL +++
        "buy,2024-02-01,5,3" +++ NL) /\
  ("ID,Amount,Timestamp,Transaction Type" +++ NL +++
   "1,10,2024-01-05,buy" +++ NL +++ "2,7,2024-01-10,sell" +++ NL +++
   "3,5,2024-02-01,buy" +++ NL) <>
  ("Transaction Type,Timestamp,Amount,ID" +++ NL +++
   "buy,2024-01-05,10,1" +++ NL +++ "sell,2024-01-10,7,2" +++ NL +++
   "buy,2024-02-01,5,3" +++ NL).
Proof. split; [|split]; [vm_compute; reflexivity | vm_compute; reflexivity | discriminate]. Qed.

(** ** Naming the output after the dates of the merged tables *)

(** C5: [generate_date_range_filename] is given the tables after padding
    (line 178 passes [dfs]), not the tables as read.  In [ledger.csv] the
    [Timestamp] column does not parse, so the table as read has no date;
    once it is padded with the all-missing [created_at] column of
    [export.csv], that column parses to [NaT] and [NaT] becomes the table's
    date.  [min] then returns [NaT], whose [strftime] raises: with the new
    column accepted, the run aborts and writes nothing, where the dates of
    the tables as read give [consolidated_02-01-2024_thru_02-01-2024.csv]. *)
Theorem padded_date_column_breaks_naming :
  get_csv_date rt_a (frame_of rt_a file_badts) = None /\
  get_csv_date rt_a (frame_of rt_a file_created) = Some (Ts (mkDate 2024 2 1)) /\
  get_csv_date rt_a (add_missing rt_a (headers_union (frame_of rt_a) [file_badts; file_created] ∅)
                       (frame_of rt_a file_badts)) = Some NaT /\
  (run rt_a None [file_badts; file_created] ["y"] ∅).1 = Exc "NaTType does not support strftime" /\
  st_fs (run rt_a None [file_badts; file_created] ["y"] ∅).2 = ∅ /\
  ("consolidated_" +++ strftime_mdY (mkDate 2024 2 1) +++ "_thru_" +++
   strftime_mdY (mkDate 2024 2 1) +++ ".csv") = "consolidated_02-01-2024_thru_02-01-2024.csv".
Proof. split_and!; vm_compute; reflexivity. Qed.

(** * Further properties of the script *)

(** ** Locating the header line *)

Lemma find_header_shift k lines :
  find_header k lines = (fun i => k + i)%nat <$> find_header 0 lines.
Proof.
  revert k. induction lines as [|l ls IH]; intros k; simpl; [done|].
  destruct (py_contains HEADER_MARKER l); simpl; [f_equal; lia|].
  rewrite (IH (S k)), (IH 1%nat). destruct (find_header 0 ls); simpl; [f_equal; lia|done].
Qed.

(** [read_csv_with_metadata] (lines 56-60) takes as header line the first
    line holding [ID,Timestamp,Transaction Type], anywhere inside it;
    every line above it is skipped as metadata, and there is no header
    line exactly when no line holds the marker. *)
Theorem find_header_first_marker lines :
  (forall i, find_header 0 lines = Some i <->
     (exists l, lines !! i = Some l /\ py_contains HEADER_MARKER l = true) /\
     forall j l, (j < i)%nat -> lines !! j = Some l -> py_contains HEADER_MARKER l = false) /\
  (find_header 0 lines = None <-> Forall (fun l => py_contains HEADER_MARKER l = false) lines).
Proof.
  split.
  - induction lines as [|l ls IH]; intros i; simpl.
    + split; [discriminate|]. intros [(l & Hl & _) _]. discriminate.
    + rewrite find_header_shift.
      destruct (py_contains HEADER_MARKER l) eqn:Hc.
      * split.
        -- intros [= <-]. split; [by exists l|]. intros j l' Hj. lia.
        -- intros [_ Hlt]. destruct i as [|i]; [done|].
           specialize (Hlt 0%nat l ltac:(lia) eq_refl). congruence.
      * destruct i as [|i].
        -- split; [by destruct (find_header 0 ls)|].
           intros [(l' & [= <-] & Hl') _]. congruence.
        -- transitivity (find_header 0 ls = Some i).
           { destruct (find_header 0 ls); simpl; split; congruence. }
           rewrite IH. split.
           ++ intros [(l' & Hl' & Hc') Hlt]. split; [by exists l'|].
              intros [|j] l'' Hj Hj'; simpl in Hj'; [congruence|]. apply (Hlt j); [lia|done].
           ++ intros [(l' & Hl' & Hc') Hlt]. split; [by exists l'|].
              intros j l'' Hj Hj'. apply (Hlt (S j)); [lia|done].
  - induction lines as [|l ls IH]; simpl.
    + split; [constructor|done].
    + rewrite find_header_shift, Forall_cons, <- IH.
      destruct (py_contains HEADER_MARKER l); simpl.
      * split; [discriminate|]. intros [? _]. discriminate.
      * destruct (find_header 0 ls); simpl; split; try done; intros [_ ?]; done.
Qed.

(** ** Collecting the headers *)

Lemma headers_union_spec dfof files acc x :
  x ∈ headers_union dfof files acc <-> x ∈ acc \/ exists f, f ∈ files /\ x ∈ colset (dfof f).
Proof.
  unfold headers_union. revert acc. induction files as [|f files IH]; intros acc; simpl.
  - split; [by left|]. intros [?|(f & Hf & _)]; [done|]. inversion Hf.
  - rewrite IH. set_solver.
Qed.

Lemma dict_set_keys k v d :
  map fst (dict_set k v d) = if decide (k ∈ map fst d) then map fst d else map fst d ++ [k].
Proof.
  induction d as [|[k0 v0] d IH]; simpl; [done|].
  destruct (decide (k = k0)) as [->|Hne]; simpl.
  - destruct (decide (k0 ∈ k0 :: map fst d)) as [|Hn]; [done|]. exfalso; apply Hn; left.
  - rewrite IH. destruct (decide (k ∈ map fst d)), (decide (k ∈ k0 :: map fst d)); set_solver.
Qed.

Lemma headers_dict_keys dfof files d :
  NoDup (map fst d ++ files) -> map fst (headers_dict dfof files d) = map fst d ++ files.
Proof.
  unfold headers_dict. revert d. induction files as [|f files IH]; intros d Hnd; simpl.
  - by rewrite app_nil_r.
  - assert (Hf : f ∉ map fst d).
    { intros Hin. apply NoDup_app in Hnd as (_ & Hd & _). apply (Hd f Hin). by left. }
    rewrite IH; rewrite (dict_set_keys f), decide_False by done.
    + by rewrite <- app_assoc.
    + by rewrite <- app_assoc.
Qed.

(** [get_all_headers] on files that all parse: it reads every file without
    logging, returns as [all_headers] the union of their column sets, and
    as [headers_by_file] a dict with one entry per file, in discovery
    order, mapping the file to its column set. *)
Theorem get_all_headers_collects rt dfof files s :
  (forall f, f ∈ files -> read_frame rt f = inr (dfof f)) -> NoDup files ->
  exists all d, get_all_headers rt files s = (Ok (all, d), s) /\
    (forall x, x ∈ all <-> exists f, f ∈ files /\ x ∈ colset (dfof f)) /\
    map fst d = files /\
    (forall f, dict_get f d = if decide (f ∈ files) then Some (colset (dfof f)) else None).
Proof.
  intros Hr Hnd. exists (headers_union dfof files ∅), (headers_dict dfof files []).
  split; [by apply get_all_headers_loop_ok|]. split; [|split].
  - intros x. rewrite headers_union_spec. set_solver.
  - by apply headers_dict_keys.
  - intros f. rewrite dict_get_headers_dict. by destruct (decide (f ∈ files)).
Qed.

Lemma get_all_headers_collects_witness :
  (forall f, f ∈ [file_tx; file_fee] -> read_frame rt_a f = inr (frame_of rt_a f)) /\
  NoDup [file_tx; file_fee] /\
  exists all d, get_all_headers rt_a [file_tx; file_fee] (mkState [] [] ∅) =
                (Ok (all, d), mkState [] [] ∅) /\
    (forall x, x ∈ all <-> exists f, f ∈ [file_tx; file_fee] /\ x ∈ colset (frame_of rt_a f)) /\
    map fst d = [file_tx; file_fee] /\
    (forall f, dict_get f d = if decide (f ∈ [file_tx; file_fee])
                              then Some (colset (frame_of rt_a f)) else None).
Proof.
  assert (Hr : forall f, f ∈ [file_tx; file_fee] -> read_frame rt_a f = inr (frame_of rt_a f)).
  { intros f Hf. apply elem_of_cons in Hf as [->|Hf]; [reflexivity|].
    apply elem_of_cons in Hf as [->|Hf]; [reflexivity|]. by apply elem_of_nil in Hf. }
  assert (Hnd : NoDup [file_tx; file_fee]).
  { apply NoDup_cons; split; [|apply NoDup_singleton]. apply not_elem_of_cons.
    split; [discriminate | apply not_elem_of_nil]. }
  split; [exact Hr|]. split; [exact Hnd|].
  exact (get_all_headers_collects rt_a (frame_of rt_a) [file_tx; file_fee] (mkState [] [] ∅) Hr Hnd).
Defined.

(** [get_all_headers] stops at the first file (in discovery order) that
    cannot be read: the error is logged twice, by [read_csv_with_metadata]
    and by [get_all_headers] itself, and re-raised; the files after it are
    not read. *)
Theorem get_all_headers_first_failure rt pre f post e s :
  (forall g, g ∈ pre -> exists df, read_frame rt g = inr df) -> read_frame rt f = inl e ->
  get_all_headers rt (pre ++ f :: post) s =
  (Exc e, add_log s [LogErrorReading (fname f) e; LogErrorHeaders (fname f) e]).
Proof.
  intros Hpre Hf. apply (get_all_headers_loop_err rt (frame_of rt)); [|done].
  intros g Hg. destruct (Hpre g Hg) as [df Hdf]. unfold frame_of. by rewrite Hdf.
Qed.

Lemma get_all_headers_first_failure_witness :
  (forall g, g ∈ [file_tx] -> exists df, read_frame rt_a g = inr df) /\
  read_frame rt_a file_nomarker = inl "Could not find CSV headers" /\
  get_all_headers rt_a ([file_tx] ++ file_nomarker :: [file_tx2]) (mkState [] [] ∅) =
  (Exc "Could not find CSV headers",
   add_log (mkState [] [] ∅) [LogErrorReading "notes.csv" "Could not find CSV headers";
                              LogErrorHeaders "notes.csv" "Could not find CSV headers"]).
Proof.
  assert (Hpre : forall g, g ∈ [file_tx] -> exists df, read_frame rt_a g = inr df).
  { intros g Hg. apply elem_of_cons in Hg as [->|Hg]; [eexists; reflexivity|].
    by apply elem_of_nil in Hg. }
  assert (Hf : read_frame rt_a file_nomarker = inl "Could not find CSV headers") by reflexivity.
  split; [exact Hpre|]. split; [exact Hf|].
  exact (get_all_headers_first_failure rt_a [file_tx] file_nomarker [file_tx2] _ (mkState [] [] ∅) Hpre Hf).
Defined.

(** ** Which columns count as date columns *)

Lemma starts_with_app_prefix p q s :
  starts_with (p +++ q) s = true -> starts_with p s = true.
Proof.
  revert s. induction p as [|c p IH]; intros s; [done|].
  destruct s as [|d s]; simpl; [done|].
  rewrite !andb_true_iff. intros [? ?]. split; [done|]. by apply IH.
Qed.

Lemma py_contains_app_prefix p q s :
  py_contains (p +++ q) s = true -> py_contains p s = true.
Proof.
  induction s as [|d s IH]; simpl; rewrite !orb_true_iff.
  - intros [H|H]; [left; by apply (starts_with_app_prefix p q)|done].
  - intros [H|H]; [left; by apply (starts_with_app_prefix p q)|right; by apply IH].
Qed.

Lemma ascii_lower_not_T c : Ascii.eqb "T" (ascii_lower c) = false.
Proof.
  destruct c as [[] [] [] [] [] [] [] []]; vm_compute; reflexivity.
Qed.

Lemma py_contains_Timestamp_lower s : py_contains "Timestamp" (py_lower s) = false.
Proof.
  induction s as [|c s IH]; [reflexivity|].
  cbn [py_lower py_contains starts_with]. pose proof (ascii_lower_not_T c) as HT. rewrite HT. simpl. exact IH.
Qed.

(** [get_csv_date] (lines 34-37) treats a column as a date column exactly
    when its lowercased name contains [date], [time] or [created_at]:
    [timestamp] and [datetime] add nothing, and the entry [Timestamp] never
    matches a lowercased name.  So [Updated By] or [Lifetime Value] count as
    date columns. *)
Theorem is_date_column_iff col :
  is_date_column col =
  py_contains "date" (py_lower col) || py_contains "time" (py_lower col) ||
  py_contains "created_at" (py_lower col).
Proof.
  unfold is_date_column, date_columns. simpl existsb.
  rewrite py_contains_Timestamp_lower.
  pose proof (py_contains_app_prefix "time" "stamp" (py_lower col)) as H1.
  pose proof (py_contains_app_prefix "date" "time" (py_lower col)) as H2.
  change ("time" +++ "stamp") with "timestamp" in H1.
  change ("date" +++ "time") with "datetime" in H2.
  destruct (py_contains "date" (py_lower col)), (py_contains "time" (py_lower col)),
    (py_contains "created_at" (py_lower col)), (py_contains "timestamp" (py_lower col)),
    (py_contains "datetime" (py_lower col)); simpl; try reflexivity;
    first [specialize (H1 eq_refl) | specialize (H2 eq_refl)]; discriminate.
Qed.

(** ** The date of one table *)

Lemma get_csv_date_loop_spec rt df cols :
  match get_csv_date_loop rt df cols with
  | Some d => exists pre col post ds,
      cols = pre ++ col :: post /\ is_date_column col = true /\
      to_datetime rt (column_values df col) = Some ds /\ ds <> [] /\ d = series_min ds /\
      forall c, c ∈ pre -> is_date_column c = true ->
        to_datetime rt (column_values df c) = None \/ to_datetime rt (column_values df c) = Some []
  | None => forall c, c ∈ cols -> is_date_column c = true ->
        to_datetime rt (column_values df c) = None \/ to_datetime rt (column_values df c) = Some []
  end.
Proof.
  induction cols as [|col rest IH]; simpl.
  - intros c Hc. inversion Hc.
  - destruct (is_date_column col) eqn:Hdc.
    + destruct (to_datetime rt (column_values df col)) as [dates|] eqn:Ht.
      * destruct (bool_decide (dates = [])) eqn:He; simpl.
        -- apply bool_decide_eq_true in He. subst dates.
           destruct (get_csv_date_loop rt df rest).
           ++ destruct IH as (pre & c0 & post & ds & -> & H1 & H2 & H3 & H4 & Hpre).
              exists (col :: pre), c0, post, ds. split_and!; try done.
              intros c Hc Hdc'. apply elem_of_cons in Hc as [->|Hc]; [by right|]. by apply Hpre.
           ++ intros c Hc Hdc'. apply elem_of_cons in Hc as [->|Hc]; [by right|]. by apply IH.
        -- apply bool_decide_eq_false in He.
           exists [], col, rest, dates. split_and!; try done. intros c Hc. inversion Hc.
      * destruct (get_csv_date_loop rt df rest).
        -- destruct IH as (pre & c0 & post & ds & -> & H1 & H2 & H3 & H4 & Hpre).
           exists (col :: pre), c0, post, ds. split_and!; try done.
           intros c Hc Hdc'. apply elem_of_cons in Hc as [->|Hc]; [by left|]. by apply Hpre.
        -- intros c Hc Hdc'. apply elem_of_cons in Hc as [->|Hc]; [by left|]. by apply IH.
    + destruct (get_csv_date_loop rt df rest).
      * destruct IH as (pre & c0 & post & ds & -> & H1 & H2 & H3 & H4 & Hpre).
        exists (col :: pre), c0, post, ds. split_and!; try done.
        intros c Hc Hdc'. apply elem_of_cons in Hc as [->|Hc]; [congruence|]. by apply Hpre.
      * intros c Hc Hdc'. apply elem_of_cons in Hc as [->|Hc]; [congruence|]. by apply IH.
Qed.

(** [get_csv_date] returns the minimum of the first date column, in the
    table's own column order, whose values all parse and which has at least
    one value; every date column before it failed to parse or was empty.
    It returns [None] when every date column fails to parse or is empty. *)
Theorem get_csv_date_first_date_column rt df :
  match get_csv_date rt df with
  | Some d => exists pre col post ds,
      columns df = pre ++ col :: post /\ is_date_column col = true /\
      to_datetime rt (column_values df col) = Some ds /\ ds <> [] /\ d = series_min ds /\
      forall c, c ∈ pre -> is_date_column c = true ->
        to_datetime rt (column_values df c) = None \/ to_datetime rt (column_values df c) = Some []
  | None => forall c, c ∈ columns df -> is_date_column c = true ->
        to_datetime rt (column_values df c) = None \/ to_datetime rt (column_values df c) = Some []
  end.
Proof. apply get_csv_date_loop_spec. Qed.

Lemma get_csv_date_no_rows rt df : rows df = [] -> get_csv_date rt df = None.
Proof.
  intros Hr. unfold get_csv_date. induction (columns df) as [|col cols IH]; simpl; [done|].
  assert (Hv : column_values df col = []).
  { unfold column_values. rewrite Hr. by destruct (col_index col (columns df)). }
  rewrite Hv. by destruct (is_date_column col).
Qed.

(** ** Naming the output file *)

(** A directory whose tables have no data rows yields no date: the output
    is named after the current date. *)
Theorem generate_date_range_filename_no_rows rt dfs s :
  Forall (fun df => rows df = []) dfs ->
  generate_date_range_filename rt dfs s =
  (Ok ("consolidated_" +++ strftime_mdY (now rt) +++ ".csv"), s).
Proof.
  intros Hr. unfold generate_date_range_filename.
  assert (Ho : omap (get_csv_date rt) dfs = []).
  { induction Hr as [|df dfs Hdf Hr IH]; [done|]. simpl. by rewrite get_csv_date_no_rows. }
  by rewrite Ho.
Qed.

Lemma generate_date_range_filename_no_rows_witness :
  Forall (fun df => rows df = []) [mkFrame ["ID"; "Timestamp"; "Transaction Type"] []] /\
  generate_date_range_filename rt_a [mkFrame ["ID"; "Timestamp"; "Transaction Type"] []]
    (mkState [] [] ∅) =
  (Ok ("consolidated_" +++ strftime_mdY (now rt_a) +++ ".csv"), mkState [] [] ∅).
Proof.
  assert (H : Forall (fun df => rows df = []) [mkFrame ["ID"; "Timestamp"; "Transaction Type"] []])
    by (repeat constructor).
  split; [exact H|]. exact (generate_date_range_filename_no_rows rt_a _ (mkState [] [] ∅) H).
Defined.

Lemma string_app_cons x (a b : string) : String x a +++ b = String x (a +++ b).
Proof. reflexivity. Qed.

Lemma string_app_assoc (a b c : string) : a +++ (b +++ c) = (a +++ b) +++ c.
Proof. induction a as [|x a IH]; [reflexivity|]. by rewrite !string_app_cons, IH. Qed.

Lemma rev_app_append (s t acc : string) :
  String.rev_app (s +++ t) acc = String.rev_app t (String.rev_app s acc).
Proof. revert acc. induction s as [|c s IH]; intros acc; simpl; [done|]. apply IH. Qed.

Lemma py_endswith_csv s : py_endswith (s +++ ".csv") ".csv" = true.
Proof. unfold py_endswith, String.rev. rewrite rev_app_append. reflexivity. Qed.

(** Every output file name the script chooses ends in [.csv]: an explicit
    name gets [.csv] appended unless it already ends so, in which case it
    is kept as given, and the generated names end in [.csv]. *)
Theorem output_name_ends_with_csv rt o dfs p :
  name_result rt o dfs = Ok p ->
  py_endswith p ".csv" = true /\ (forall n, o = Some n -> py_endswith n ".csv" = true -> p = n).
Proof.
  destruct o as [n|].
  - rewrite name_result_some. destruct (py_endswith n ".csv") eqn:E; intros [= <-].
    + split; [done|]. by intros ? [= <-].
    + split; [apply py_endswith_csv|]. intros ? [= <-]. congruence.
  - unfold name_result, choose_output_filename, generate_date_range_filename.
    destruct (omap (get_csv_date rt) dfs) as [|x xs]; simpl.
    + intros [= <-]. split; [|discriminate]. rewrite string_app_assoc. apply py_endswith_csv.
    + destruct (py_min x xs), (py_max x xs); simpl; try discriminate.
      intros [= <-]. split; [|discriminate]. rewrite !string_app_assoc. apply py_endswith_csv.
Qed.

Lemma output_name_ends_with_csv_witness :
  name_result rt_a (Some "report") [] = Ok "report.csv" /\
  py_endswith "report.csv" ".csv" = true /\
  (forall n, Some "report" = Some n -> py_endswith n ".csv" = true -> "report.csv" = n).
Proof.
  assert (H : name_result rt_a (Some "report") [] = Ok "report.csv") by reflexivity.
  split; [exact H|]. exact (output_name_ends_with_csv rt_a (Some "report") [] "report.csv" H).
Defined.

(** ** Padding, merging and the summary *)

Lemma filter_not_in_snoc (cols l : list string) col :
  col ∉ l ->
  filter (fun c => c ∉ cols ++ [col]) l = filter (fun c => c ∉ cols) l.
Proof.
  induction l as [|x l IH]; intros Hcol; [done|].
  apply not_elem_of_cons in Hcol as [Hx Hl]. rewrite !filter_cons, IH by done.
  assert (x ∉ cols ++ [col] <-> x ∉ cols) as Hiff.
  { rewrite elem_of_app, list_elem_of_singleton. split; [tauto|]. intros ? [?|?]; congruence. }
  destruct (decide (x ∉ cols ++ [col])), (decide (x ∉ cols)); tauto.
Qed.

Lemma fold_add_column_pads (l : list string) df :
  NoDup l ->
  fold_left add_column l df =
  let extra := filter (fun c => c ∉ columns df) l in
  mkFrame (columns df ++ extra) (map (fun r => r ++ replicate (length extra) None) (rows df)).
Proof.
  revert df. induction l as [|col l IH]; intros df Hnd; simpl.
  - destruct df as [cols rs]. simpl. rewrite app_nil_r. f_equal.
    rewrite <- (map_id rs) at 1. apply map_ext. intros r. by rewrite app_nil_r.
  - apply NoDup_cons in Hnd as [Hcol Hnd]. rewrite IH by done. cbn zeta.
    unfold add_column. rewrite filter_cons.
    destruct (decide (col ∈ columns df)) as [Hin|Hout].
    + by rewrite decide_False by tauto.
    + rewrite decide_True by done. simpl.
      rewrite filter_not_in_snoc by done. f_equal; [by rewrite <- app_assoc|].
      rewrite map_map. apply map_ext. intros r. by rewrite <- app_assoc.
Qed.

(** [add_missing] (lines 156-159) keeps the file's columns and rows in
    order, appends the schema's columns the file lacks, in the set's
    iteration order, and pads every row with one missing cell per appended
    column; afterwards every schema column is a column of the table. *)
Theorem add_missing_pads rt a df :
  let extra := filter (fun c => c ∉ columns df) (set_iter rt a) in
  add_missing rt a df =
    mkFrame (columns df ++ extra) (map (fun r => r ++ replicate (length extra) None) (rows df)) /\
  (forall c, c ∈ a -> c ∈ columns (add_missing rt a df)).
Proof.
  cbn zeta. unfold add_missing. rewrite fold_add_column_pads by apply set_iter_NoDup.
  split; [done|]. intros c Hc. simpl. apply elem_of_app.
  destruct (decide (c ∈ columns df)); [by left|right].
  apply list_elem_of_filter. split; [done|]. by apply set_iter_elem.
Qed.

(** The merge loop (lines 152-164) never raises: it keeps, in order, the
    padded table of each file that can be read, and for a file that cannot
    be read it logs the read error and the skip and goes on. *)
Theorem merge_loop_skips_unreadable rt a files dfs s :
  merge_loop rt a files dfs s =
  (Ok (dfs ++ omap (fun f => match read_frame rt f with
                             | inr df => Some (add_missing rt a df)
                             | inl _ => None
                             end) files),
   add_log s (List.concat (map (fun f => match read_frame rt f with
                                        | inr _ => [LogRead (fname f)]
                                        | inl e => [LogErrorReading (fname f) e;
                                                    LogMergeError (fname f) e]
                                        end) files))).
Proof.
  revert dfs s. induction files as [|f files IH]; intros dfs s; simpl.
  - by rewrite app_nil_r, add_log_nil.
  - destruct (read_frame rt f) as [e|df] eqn:Hf.
    + rewrite (bind_Ok _ _ _ dfs (add_log s [LogErrorReading (fname f) e; LogMergeError (fname f) e])).
      * by rewrite IH, add_log_app.
      * rewrite (try_Exc _ _ s e (add_log s [LogErrorReading (fname f) e])).
        -- unfold mbind, M_bind, log, mret, M_ret, add_log. simpl. by rewrite <- app_assoc.
        -- apply bind_Exc. by apply read_csv_with_metadata_inl.
    + rewrite (bind_Ok _ _ _ (dfs ++ [add_missing rt a df]) (add_log s [LogRead (fname f)])).
      * by rewrite IH, add_log_app, <- app_assoc.
      * apply try_Ok. rewrite (bind_Ok _ _ _ df s).
        -- unfold mbind, M_bind, log. by destruct s.
        -- by apply read_csv_with_metadata_inr.
Qed.

(** Splits a [Forall] over a log built by appends and conses. *)
Ltac forall_log :=
  repeat (first [apply Forall_app; split | apply Forall_cons; split | apply Forall_nil | done]).

Lemma extra_warnings_schema rt d base :
  Forall (fun ev => schema_event ev = true) (extra_warnings rt d base).
Proof.
  apply Forall_forall. intros ev Hev. unfold extra_warnings in Hev.
  apply list_elem_of_omap in Hev as ([f h] & _ & Hev).
  destruct (decide (h ∖ base = ∅)); [discriminate|]. by injection Hev as <-.
Qed.

(** The schema check only appends its own events to the log. *)
Lemma reconcile_log rt first all d base s :
  dict_get first d = Some base ->
  exists evs, st_log (reconcile rt first all d s).2 = st_log s ++ evs /\
    Forall (fun ev => schema_event ev = true) evs.
Proof.
  intros Hb. destruct (decide (all ∖ base = ∅)) as [He|He].
  - rewrite (reconcile_same rt first all d base s Hb He). exists []. by rewrite app_nil_r.
  - destruct (st_stdin s) as [|l rest] eqn:Hin.
    + rewrite (reconcile_eof rt first all d base s Hb He Hin).
      exists ([LogDifferentHeaders] ++ extra_warnings rt d base). split; [done|].
      apply Forall_app. split; [by repeat constructor | apply extra_warnings_schema].
    + rewrite (reconcile_prompt rt first all d base s l rest Hb He Hin). simpl.
      eexists. split; [reflexivity|].
      pose proof (extra_warnings_schema rt d base).
      destruct (String.eqb (py_lower l) "y"); forall_log.
Qed.

Lemma schema_not_merge_skip evs :
  Forall (fun ev => schema_event ev = true) evs ->
  Forall (fun ev => merge_skip_event ev = false) evs.
Proof. intros H. apply (Forall_impl _ _ _ H). by intros []. Qed.

Lemma forallb_false_elem {X} (p : X -> bool) (l : list X) :
  forallb p l = false -> exists x, x ∈ l /\ p x = false.
Proof.
  induction l as [|x l IH]; simpl; [discriminate|].
  destruct (p x) eqn:Hx; simpl.
  - intros H. destruct (IH H) as (y & Hy & Hpy). exists y. split; [by right|done].
  - intros _. exists x. split; [by left|done].
Qed.

Lemma readable_all rt files :
  forallb (fun f => match read_frame rt f with inr _ => true | inl _ => false end) files = true ->
  forall f, f ∈ files -> read_frame rt f = inr (frame_of rt f).
Proof.
  intros H f Hf. apply forallb_forall with (x := f) in H; [|by apply list_elem_of_In].
  unfold frame_of. by destruct (read_frame rt f).
Qed.

(** The branch of line 163 (skipping a file in the merge loop) and the
    branch of lines 166-168 (no file merged) are dead code: no run ever
    logs a merge skip or the "No valid CSV files" error, because the header
    pass (lines 73-88) has already read every file or aborted the run. *)
Theorem run_never_skips_in_merge rt o files stdin fs :
  Forall (fun ev => merge_skip_event ev = false) (st_log (run rt o files stdin fs).2).
Proof.
  destruct files as [|first rest]; [simpl; forall_log|].
  destruct (forallb (fun f => match read_frame rt f with inr _ => true | inl _ => false end)
              (first :: rest)) eqn:Hb.
  - pose proof (readable_all rt _ Hb) as Hr.
    rewrite (run_readable rt o first rest (frame_of rt)) by done.
    destruct (reconcile_log rt first (headers_union (frame_of rt) (first :: rest) ∅)
                (headers_dict (frame_of rt) (first :: rest) [])
                (colset (frame_of rt first))
                (mkState [LogFound (length (first :: rest))] stdin fs)) as (evs & Hlog & Hevs).
    { apply base_headers_dict. }
    apply schema_not_merge_skip in Hevs.
    destruct (reconcile _ _ _ _ _) as [[A|e] s1]; simpl in Hlog.
    + assert (Hread : Forall (fun ev => merge_skip_event ev = false)
                        (map (fun f => LogRead (fname f)) rest)).
      { apply Forall_forall. intros ev Hev. by apply list_elem_of_fmap in Hev as (f & -> & _). }
      cbn zeta. destruct (name_result _ _ _); simpl; rewrite Hlog; forall_log.
    + simpl. rewrite Hlog. forall_log.
  - apply forallb_false_elem in Hb as (g & Hg & Hgf).
    destruct (read_frame rt g) as [e|] eqn:Hge; [|discriminate].
    destruct (first_unreadable rt (first :: rest)) as (pre & f & post & e' & Hfiles & Hpre & Hf).
    { eauto. }
    unfold run. rewrite Hfiles, (consolidate_csvs_unreadable rt o pre f post (frame_of rt) e')
      by done.
    simpl. forall_log.
Qed.

Lemma output_rows_length cols dfs :
  length (output_rows cols dfs) = sum_list (map (fun df => length (rows df)) dfs).
Proof.
  unfold output_rows. induction dfs as [|df dfs IH]; [done|].
  simpl. rewrite length_app, length_map, IH. done.
Qed.

Lemma set_iter_length rt (A : gset string) : length (set_iter rt A) = size A.
Proof.
  unfold size, set_size. simpl. apply Permutation_length.
  apply NoDup_Permutation; [apply set_iter_NoDup | apply NoDup_elements |].
  intros x. rewrite set_iter_elem. symmetry. apply elem_of_elements.
Qed.

(** On a directory whose files can all be read, a run either leaves
    [data/processed/] untouched, or writes the output file and ends its
    log with the summary of lines 187-189: the number of files, the output
    path, the total number of data rows of all files, and the number of
    columns of the final schema. *)
Theorem run_summary_counts rt o first rest dfof inp fs :
  (forall f, f ∈ first :: rest -> read_frame rt f = inr (dfof f)) ->
  let files := first :: rest in
  st_fs (run rt o files inp fs).2 = fs \/
  exists p (A : gset string) pre,
    (run rt o files inp fs).1 = Ok tt /\
    st_fs (run rt o files inp fs).2 =
      <[p := to_csv (mkFrame (set_iter rt A) (output_rows (set_iter rt A) (map dfof files)))]> fs /\
    st_log (run rt o files inp fs).2 =
      pre ++ [LogConsolidated (length files) p;
              LogTotalRows (sum_list (map (fun f => length (rows (dfof f))) files));
              LogTotalColumns (size A)].
Proof.
  intros Hr. cbn zeta. rewrite (run_readable rt o first rest dfof) by done.
  pose proof (fs_pure_fs _ (mkState [LogFound (length (first :: rest))] inp fs)
                (reconcile_fs_pure rt first (headers_union dfof (first :: rest) ∅)
                   (headers_dict dfof (first :: rest) []))) as Hfs.
  destruct (reconcile _ _ _ _ _) as [[A|e] s1]; simpl in Hfs.
  - cbn zeta. destruct (name_result _ _ _) as [p|e]; simpl.
    + right. exists p, A, (st_log s1 ++ map (fun f => LogRead (fname f)) (first :: rest)).
      split; [done|]. split; [by rewrite Hfs|].
      rewrite output_rows_length, set_iter_length. simpl. rewrite map_map. reflexivity.
    + left. done.
  - left. done.
Qed.

Lemma run_summary_counts_witness :
  (forall f, f ∈ [file_tx; file_fee] -> read_frame rt_a f = inr (frame_of rt_a f)) /\
  let files := [file_tx; file_fee] in
  st_fs (run rt_a (Some "out") files ["y"] ∅).2 = ∅ \/
  exists p (A : gset string) pre,
    (run rt_a (Some "out") files ["y"] ∅).1 = Ok tt /\
    st_fs (run rt_a (Some "out") files ["y"] ∅).2 =
      <[p := to_csv (mkFrame (set_iter rt_a A)
                       (output_rows (set_iter rt_a A) (map (frame_of rt_a) files)))]> ∅ /\
    st_log (run rt_a (Some "out") files ["y"] ∅).2 =
      pre ++ [LogConsolidated (length files) p;
              LogTotalRows (sum_list (map (fun f => length (rows (frame_of rt_a f))) files));
              LogTotalColumns (size A)].
Proof.
  assert (H : forall f, f ∈ [file_tx; file_fee] -> read_frame rt_a f = inr (frame_of rt_a f)).
  { intros f Hf. apply list_elem_of_In in Hf. destruct Hf as [<-|[<-|[]]]; reflexivity. }
  split; [exact H|]. exact (run_summary_counts rt_a (Some "out") file_tx [file_fee] (frame_of rt_a) ["y"] ∅ H).
Defined.

(** A run that ends in an exception writes nothing to [data/processed/]
    (the write of line 186 is the last step that can fail), and its last
    log line is the [An error occurred] line of line 192 with that
    exception. *)
Theorem run_error_writes_nothing rt o files stdin fs e :
  (run rt o files stdin fs).1 = Exc e ->
  st_fs (run rt o files stdin fs).2 = fs /\
  exists pre, st_log (run rt o files stdin fs).2 = pre ++ [LogOccurred e].
Proof.
  destruct files as [|first rest]; [discriminate|].
  destruct (forallb (fun f => match read_frame rt f with inr _ => true | inl _ => false end)
              (first :: rest)) eqn:Hb.
  - pose proof (readable_all rt _ Hb) as Hr.
    rewrite (run_readable rt o first rest (frame_of rt)) by done.
    pose proof (fs_pure_fs _ (mkState [LogFound (length (first :: rest))] stdin fs)
                  (reconcile_fs_pure rt first (headers_union (frame_of rt) (first :: rest) ∅)
                     (headers_dict (frame_of rt) (first :: rest) []))) as Hfs.
    destruct (reconcile _ _ _ _ _) as [[A|e1] s1]; simpl in Hfs.
    + cbn zeta. destruct (name_result _ _ _) as [p|e2]; simpl; [discriminate|].
      intros [= <-]. split; [done|]. eexists. reflexivity.
    + simpl. intros [= <-]. split; [done|]. eexists. reflexivity.
  - apply forallb_false_elem in Hb as (g & Hg & Hgf).
    destruct (read_frame rt g) as [e0|] eqn:Hge; [|discriminate].
    destruct (first_unreadable rt (first :: rest)) as (pre & f & post & e' & Hfiles & Hpre & Hf).
    { eauto. }
    unfold run. rewrite Hfiles, (consolidate_csvs_unreadable rt o pre f post (frame_of rt) e')
      by done.
    simpl. intros [= <-]. split; [done|].
    exists [LogFound (length (pre ++ f :: post)); LogErrorReading (fname f) e';
            LogErrorHeaders (fname f) e']. reflexivity.
Qed.

Lemma run_error_writes_nothing_witness :
  (run rt_a None [file_tx; file_nomarker] [] ∅).1 = Exc "Could not find CSV headers" /\
  st_fs (run rt_a None [file_tx; file_nomarker] [] ∅).2 = ∅ /\
  exists pre, st_log (run rt_a None [file_tx; file_nomarker] [] ∅).2 =
              pre ++ [LogOccurred "Could not find CSV headers"].
Proof.
  assert (H : (run rt_a None [file_tx; file_nomarker] [] ∅).1 = Exc "Could not find CSV headers")
    by reflexivity.
  split; [exact H|]. exact (run_error_writes_nothing rt_a None _ [] ∅ _ H).
Defined.
